(** * GMM-ML spoofed speech detection: scoring loop and error-rate cells

    Shallow embedding of the cells of
    [gmm_ml_synthetic_speech_detection.ipynb] that hold the notebook's own
    logic: the GMM-ML scoring loop (log-likelihood ratio and hard decision per
    utterance) and the EER computation cell (false negative / false positive
    rates at a hand-set threshold), and around them the loading of the
    protocol tables, the feature extraction loop of the training stage, the
    choice of the training data of the two GMMs and the performance figures
    at the end of the scoring cell.  The calls into pandas, numpy,
    scikit-learn and bob are modelled by what they return.

    Numbers.  A score is modelled by the rational that its float64 denotes
    ([Q]), and Python's [==], [<], [<=] on scores are [Qeq], [Qlt], [Qle].
    The rates and the estimate are given by the exact quotients, in
    [float64], which keeps the values that numpy's true division produces for
    a zero divisor (nan, inf); their rounding to the last digit is not
    modelled there.  Where rounding decides what the EER cell prints, in the
    difference of the two rates and its comparison with [.25], the
    computation is carried out in IEEE 754 binary64 ([binary64]). *)

From Stdlib Require Import ZArith QArith Qabs Lia Lqa SpecFloat.
From Stdlib Require Import OrderedTypeEx Permutation Sorted.
From stdpp Require Import base list strings sorting.

Set Default Proof Using "Type".
Local Open Scope Q_scope.

(** ** Python outcomes *)

(** The exceptions that the modelled calls can raise: numpy's indexing error,
    scikit-learn's [ValueError], and whatever a density model raises on an
    input it rejects. *)
Inductive exn : Type :=
  | IndexError
  | ValueError
  | LibraryError.

Inductive outcome (A : Type) : Type :=
  | Returns (a : A)
  | Raises (e : exn).
Arguments Returns {A} a.
Arguments Raises {A} e.

#[global] Instance outcome_bind : MBind outcome := fun A B f m =>
  match m with
  | Returns a => f a
  | Raises e => Raises e
  end.

Definition returns {A : Type} (m : outcome A) : Prop := exists a, m = Returns a.
Definition raises {A : Type} (m : outcome A) : Prop := exists e, m = Raises e.

(** ** float64 values of the rate computations *)

Inductive float64 : Type :=
  | Fin (q : Q)
  | PInf
  | NInf
  | NaN.

Definition fneg (x : float64) : float64 :=
  match x with
  | Fin a => Fin (- a)
  | PInf => NInf
  | NInf => PInf
  | NaN => NaN
  end.

Definition fadd (x y : float64) : float64 :=
  match x, y with
  | Fin a, Fin b => Fin (a + b)
  | NaN, _ | _, NaN => NaN
  | PInf, NInf | NInf, PInf => NaN
  | PInf, _ | _, PInf => PInf
  | NInf, _ | _, NInf => NInf
  end.

Definition fsub (x y : float64) : float64 := fadd x (fneg y).

(** [x / c] for a finite non-zero constant [c] (the cell divides by [2]). *)
Definition fdivc (x : float64) (c : Q) : float64 :=
  match x with
  | Fin a => Fin (a / c)
  | PInf => if Qle_bool 0 c then PInf else NInf
  | NInf => if Qle_bool 0 c then NInf else PInf
  | NaN => NaN
  end.

Definition Qlt_bool (x y : Q) : bool := negb (Qle_bool y x).

(** numpy's true division of an int64 by a Python int: a zero divisor gives
    nan for [0/0] and a signed infinity otherwise (with a RuntimeWarning, not
    an exception). *)
Definition true_divide (n d : Z) : float64 :=
  if (d =? 0)%Z then
    if (n =? 0)%Z then NaN else if (0 <? n)%Z then PInf else NInf
  else Fin (inject_Z n / inject_Z d).

(** ** binary64 arithmetic *)

(** IEEE 754 binary64 values, with the operations of [SpecFloat] at precision
    53 and maximal exponent 1024 (round to nearest, ties to even). *)
Definition binary64 : Type := spec_float.

(** The float64 nearest to an integer: numpy converts both operands of [/]
    before it divides. *)
Definition b64_of_Z (n : Z) : binary64 := binary_normalize 53 1024 n 0 false.

Definition b64_sub (x y : binary64) : binary64 := SFsub 53 1024 x y.
Definition b64_div (x y : binary64) : binary64 := SFdiv 53 1024 x y.

(** [np.abs] *)
Definition b64_abs (x : binary64) : binary64 := SFabs x.

(** [x < y]; every comparison with nan is [False]. *)
Definition b64_lt (x y : binary64) : bool := SFltb x y.

(** The literal [.25], which is [2^-2]. *)
Definition b64_quarter : binary64 := binary_normalize 53 1024 1 (-2) false.

(** numpy's true division of an int64 by a Python int, as the float64 it
    returns: [0/0] is nan. *)
Definition b64_true_divide (n d : Z) : binary64 := b64_div (b64_of_Z n) (b64_of_Z d).

(** ** numpy array operations used by the cells *)

(** [a > t] and [a <= t], elementwise. *)
Definition np_gt (a : list Q) (t : Q) : list bool := map (fun x => Qlt_bool t x) a.
Definition np_le (a : list Q) (t : Q) : list bool := map (fun x => Qle_bool x t) a.

(** [z == c], elementwise. *)
Definition np_eq (z : list Z) (c : Z) : list bool := map (fun x => (x =? c)%Z) z.

(** [m.sum()] of a boolean array. *)
Definition np_sum (m : list bool) : Z := fold_right (fun b acc => (Z.b2z b + acc)%Z) 0%Z m.

(** [len(a)] *)
Definition len {A : Type} (a : list A) : Z := Z.of_nat (length a).

Fixpoint mask_select {A : Type} (a : list A) (m : list bool) : list A :=
  match a, m with
  | x :: a', b :: m' => if b then x :: mask_select a' m' else mask_select a' m'
  | _, _ => []
  end.

(** [a[m]] for a boolean mask [m]: numpy raises IndexError when the mask and
    the array differ in length. *)
Definition mask_index {A : Type} (a : list A) (m : list bool) : outcome (list A) :=
  if Nat.eqb (length a) (length m) then Returns (mask_select a m) else Raises IndexError.

(** ** Ground truth *)

(** The [source] column of the protocol tables. *)
Inductive label : Type := human | spoof.

Definition label_eqb (x y : label) : bool :=
  match x, y with
  | human, human | spoof, spoof => true
  | _, _ => false
  end.

(** [label_2_class = {'human':1, 'spoof':0}] *)
Definition label_2_class (x : label) : Z :=
  match x with human => 1 | spoof => 0 end.

(** [ground_truth['z'] = ground_truth.source.map(lambda x: int(x=='human'))] *)
Definition z_column (ground_truth : list label) : list Z :=
  map (fun x => Z.b2z (label_eqb x human)) ground_truth.

(** ** EER computation cell *)

(** The value the cell assigns to [thr]. *)
Definition thr_cell : Q := - (115 # 1000).

(** The rates of the cell, for the threshold [thr], the score array [pz] and
    the label array [z]:
<<
    spoofed = pz[np.array(ground_truth.z)==1]
    humans = pz[np.array(ground_truth.z)==0]
    fnr = 100*(humans>thr).sum()/len(humans)
    fpr = 100*(spoofed<=thr).sum()/len(spoofed)
>> *)
Definition estimate (pz : list Q) (z : list Z) (thr : Q) : outcome (float64 * float64) :=
  spoofed ← mask_index pz (np_eq z 1);
  humans ← mask_index pz (np_eq z 0);
  let fnr := true_divide (100 * np_sum (np_gt humans thr)) (len humans) in
  let fpr := true_divide (100 * np_sum (np_le spoofed thr)) (len spoofed) in
  Returns (fnr, fpr).

(** A score set: one (true label, LLR score) pair per utterance, in the order
    of the rows of [ground_truth]. *)
Abbreviation ScoreSet := (list (label * Q)).

Definition labels_of (s : ScoreSet) : list label := map fst s.
Definition scores_of (s : ScoreSet) : list Q := map snd s.

Definition estimate_set (s : ScoreSet) (thr : Q) : outcome (float64 * float64) :=
  estimate (scores_of s) (z_column (labels_of s)) thr.

(** The same four lines with the two divisions carried out in binary64: the
    rates as the float64 values that the cell holds. *)
Definition estimate64 (pz : list Q) (z : list Z) (thr : Q) : outcome (binary64 * binary64) :=
  spoofed ← mask_index pz (np_eq z 1);
  humans ← mask_index pz (np_eq z 0);
  let fnr := b64_true_divide (100 * np_sum (np_gt humans thr)) (len humans) in
  let fpr := b64_true_divide (100 * np_sum (np_le spoofed thr)) (len spoofed) in
  Returns (fnr, fpr).

Definition estimate64_set (s : ScoreSet) (thr : Q) : outcome (binary64 * binary64) :=
  estimate64 (scores_of s) (z_column (labels_of s)) thr.

(** What the cell prints: the two rates, their difference, whether the
    estimate is printed as exact ([EER =]) or approximate ([EER ~]), and the
    estimate itself:
<<
    print("FNR - FPR %:", fnr-fpr)
    if np.abs(fnr-fpr) <.25:
        print("EER =", (fnr+fpr)/2,"%")
    else:
        print("EER ~", (fnr+fpr)/2,"%")
>>
    The rates and the estimate are reported by their exact quotients.  The
    difference is the float64 difference of the float64 rates, and the mark
    is the comparison of its absolute value with [.25] in float64: the cell
    prints [EER =] for rates whose rounded difference is below [.25] also
    when the exact difference is not. *)
Record eer_report : Type := EerReport {
  rep_fnr : float64;
  rep_fpr : float64;
  rep_diff : binary64;
  rep_exact : bool;
  rep_eer : float64
}.

Definition eer_cell (pz : list Q) (z : list Z) (thr : Q) : outcome eer_report :=
  r ← estimate pz z thr;
  r64 ← estimate64 pz z thr;
  let diff := b64_sub r64.1 r64.2 in
  Returns {| rep_fnr := r.1;
             rep_fpr := r.2;
             rep_diff := diff;
             rep_exact := b64_lt (b64_abs diff) b64_quarter;
             rep_eer := fdivc (fadd r.1 r.2) 2 |}.

Definition eer_cell_set (s : ScoreSet) (thr : Q) : outcome eer_report :=
  eer_cell (scores_of s) (z_column (labels_of s)) thr.

(** ** GMM-ML scoring cell *)

(** One utterance: the MFCC frames that [cepstrum(vad_data)] returns. *)
Definition FeatureMatrix : Type := list (list Q).

(** A trained GMM machine, as the loop uses it: a callable on a feature matrix
    that returns a log-likelihood or raises. *)
Definition DensityModel : Type := FeatureMatrix -> outcome Q.

(** [gmm_nat(mfcc)-gmm_synt(mfcc)]: the left operand is evaluated first. *)
Definition score (natural synthetic : DensityModel) (mfcc : FeatureMatrix) : outcome Q :=
  a ← natural mfcc;
  b ← synthetic mfcc;
  Returns (a - b).

(** [a[i] = v] and [a[i]] on a numpy array: IndexError out of range. *)
Definition setitem (a : list Q) (i : nat) (v : Q) : outcome (list Q) :=
  if decide (i < length a)%nat then Returns (<[i:=v]> a) else Raises IndexError.

Definition getitem (a : list Q) (i : nat) : outcome Q :=
  match a !! i with
  | Some v => Returns v
  | None => Raises IndexError
  end.

(** [int(x > 0)], stored in a float array. *)
Definition hard_decision (x : Q) : Q := if Qlt_bool 0 x then 1 else 0.

(** The variables the loop reads and writes. *)
Record loop_state : Type := LoopState {
  llr_gmm_score : list Q;
  z_gmm : list Q;
  k : nat;
  thr : Q
}.

(** [np.zeros(n)] *)
Definition np_zeros (n : nat) : list Q := replicate n 0.

Section Scoring.
Variables gmm_nat gmm_synt : DensityModel.

(** The body of the inner loop, from the feature matrix on:
<<
      llr_gmm_score[k] = gmm_nat(mfcc)-gmm_synt(mfcc)
      z_gmm[k] = int(llr_gmm_score[k]>0)
      k += 1
>> *)
Definition loop_body (st : loop_state) (mfcc : FeatureMatrix) : outcome loop_state :=
  v ← score gmm_nat gmm_synt mfcc;
  llr ← setitem (llr_gmm_score st) (k st) v;
  x ← getitem llr (k st);
  zg ← setitem (z_gmm st) (k st) (hard_decision x);
  Returns {| llr_gmm_score := llr; z_gmm := zg; k := S (k st); thr := thr st |}.

Fixpoint scoring_loop (st : loop_state) (mfccs : list FeatureMatrix) : outcome loop_state :=
  match mfccs with
  | [] => Returns st
  | mfcc :: rest => st' ← loop_body st mfcc; scoring_loop st' rest
  end.

(** The cell up to the end of the loop, for a ground truth whose utterances
    have the feature matrices [mfccs], one per row and in row order (the
    table is sorted by folder and file, so the loop over the speakers and
    their files visits the rows in order); feature extraction is left to the
    library:
<<
  llr_gmm_score = np.zeros(len(ground_truth),)
  z_gmm = np.zeros(len(ground_truth),)
  k = 0
  thr = .5
>> *)
Definition init_state (n : nat) (thr0 : Q) : loop_state :=
  {| llr_gmm_score := np_zeros n; z_gmm := np_zeros n; k := 0; thr := thr0 |}.

Definition scoring_cell (mfccs : list FeatureMatrix) : outcome loop_state :=
  scoring_loop (init_state (length mfccs) (5 # 10)) mfccs.
End Scoring.

(** ** ROC-AUC *)

(** [sklearn.metrics.roc_auc_score(y_true, y_score)] for 0/1 labels, by its
    documented meaning (the library is not part of the notebook): the area
    under the ROC curve, which is the share of (positive, negative) pairs
    ranked in the right order, a tie counting for one half; ValueError when
    the two arrays differ in length or when only one class is present. *)
Definition pair_credit (p n : Q) : Q :=
  if Qlt_bool n p then 1 else if Qeq_bool p n then 1 # 2 else 0.

Definition Qsum (l : list Q) : Q := fold_right Qplus 0 l.

Definition rank_sum (pos neg : list Q) : Q :=
  Qsum (map (fun p => Qsum (map (pair_credit p) neg)) pos).

Definition roc_auc_score (y_true : list Z) (y_score : list Q) : outcome Q :=
  if negb (Nat.eqb (length y_true) (length y_score)) then Raises ValueError
  else
    let pos := mask_select y_score (np_eq y_true 1) in
    let neg := mask_select y_score (np_eq y_true 0) in
    match pos, neg with
    | [], _ | _, [] => Raises ValueError
    | _, _ => Returns (rank_sum pos neg / (inject_Z (len pos) * inject_Z (len neg)))
    end.

(** [roc_auc_score(ground_truth.z, ground_truth.z_gmm)]: the second argument
    is the array of hard decisions. *)
Definition roc_auc_cell (ground_truth : list label) (st : loop_state) : outcome Q :=
  roc_auc_score (z_column ground_truth) (z_gmm st).

(** The same on a score set, whose hard decisions are [int(score > 0)]. *)
Definition roc_auc_set (s : ScoreSet) : outcome Q :=
  roc_auc_score (z_column (labels_of s)) (map hard_decision (scores_of s)).

(** ** The quantities of the specification *)

#[global] Instance label_eq_dec : EqDecision label.
Proof. solve_decision. Defined.

#[global] Instance Qlt_decision (x y : Q) : Decision (x < y).
Proof.
  destruct (Qlt_le_dec x y) as [H | H]; [left; exact H | right].
  intros H'. exact (Qle_not_lt _ _ H H').
Defined.

#[global] Instance Qle_decision (x y : Q) : Decision (x <= y).
Proof.
  destruct (Qlt_le_dec y x) as [H | H]; [right | left; exact H].
  intros H'. exact (Qle_not_lt _ _ H' H).
Defined.

(** The scores of the utterances whose true label is [c]. *)
Definition class_scores (c : label) (s : ScoreSet) : list Q :=
  map snd (filter (fun p => p.1 = c) s).

(** How many scores of [l] are above, respectively at most, [t]. *)
Definition count_gt (t : Q) (l : list Q) : nat := length (filter (fun x => t < x) l).
Definition count_le (t : Q) (l : list Q) : nat := length (filter (fun x => x <= t) l).

(** [100 * hits / total] *)
Definition percent (hits total : nat) : Q :=
  100 * inject_Z (Z.of_nat hits) / inject_Z (Z.of_nat total).

(** [100 * hits / total] as the float64 that the division returns. *)
Definition b64_percent (hits total : nat) : binary64 :=
  b64_true_divide (100 * Z.of_nat hits) (Z.of_nat total).

(** The difference of the two rates of a score set as the cell computes it,
    in float64, from the counts of the two classes. *)
Definition b64_rate_difference (s : ScoreSet) (t : Q) : binary64 :=
  b64_sub
    (b64_percent (count_gt t (class_scores spoof s)) (length (class_scores spoof s)))
    (b64_percent (count_le t (class_scores human s)) (length (class_scores human s))).

Definition example_set : ScoreSet :=
  [(human, 6 # 10); (human, 4 # 10); (spoof, - (3 # 10)); (spoof, 1 # 10)].

(** [n_ceps = 60]: the number of cepstral coefficients per frame that the
    GMM machines are built for. *)
Definition n_ceps : nat := 60.

(** Two density models for the examples.  The first gives [c] per frame to
    every matrix; the second does the same but rejects an empty matrix and a
    frame that has not [dim] coefficients. *)
Definition frame_count_model (c : Q) : DensityModel :=
  fun mfcc => Returns (c * inject_Z (len mfcc)).

Definition checked_model (dim : nat) (c : Q) : DensityModel :=
  fun mfcc =>
    match mfcc with
    | [] => Raises LibraryError
    | _ => if forallb (fun frame => Nat.eqb (length frame) dim) mfcc
           then Returns (c * inject_Z (len mfcc))
           else Raises LibraryError
    end.

(** A score set on which rounding decides the mark, at the threshold 0: one
    spoof-labelled score of 112 is above it and two human-labelled scores of
    175 are not, so that the rates are 100/112 and 200/175, a quarter
    apart. *)
Definition rounding_set : ScoreSet :=
  replicate 111 (spoof, - (1)) ++ [(spoof, 1)] ++
  replicate 173 (human, 1) ++ replicate 2 (human, - (1)).

(** A score set that the threshold 0 separates. *)
Definition example_set_zero : ScoreSet :=
  [(human, 6 # 10); (spoof, - (3 # 10)); (human, 4 # 10); (spoof, 0)].

(** Three utterances of one, no and two frames. *)
Definition example_utterances : list FeatureMatrix := [[[1]]; []; [[1]; [2]]].

(** The array [old] with the values [vals] written from index [i] on. *)
Definition written (i : nat) (vals old : list Q) : list Q :=
  take i old ++ vals ++ drop (i + length vals) old.

(** ** Performance evaluation at the end of the scoring cell *)

(** [a < t] and [a >= t], elementwise. *)
Definition np_lt (a : list Q) (t : Q) : list bool := map (fun x => Qlt_bool x t) a.
Definition np_ge (a : list Q) (t : Q) : list bool := map (fun x => Qle_bool t x) a.

(** [c * x] for a finite constant [c]. *)
Definition fmulc (c : Q) (x : float64) : float64 :=
  match x with
  | Fin a => Fin (c * a)
  | PInf => if Qlt_bool 0 c then PInf else if Qlt_bool c 0 then NInf else NaN
  | NInf => if Qlt_bool 0 c then NInf else if Qlt_bool c 0 then PInf else NaN
  | NaN => NaN
  end.

Record performance : Type := Performance {
  perf_auc : Q;
  perf_fnr : float64;
  perf_fpr : float64;
  perf_bound : float64
}.

(** The last lines of the scoring cell, for the array of hard decisions
    [z_gmm], the label array [z_dvl] (a variable that the cell reads and does
    not assign) and the value of [thr]:
<<
    humans = z_gmm[z_dvl==0]
    spoofed = z_gmm[z_dvl==1]
    fnr = 100*(1-(humans<thr).sum()/len(humans))
    fpr = 100*(1-(spoofed>=thr).sum()/len(spoofed))
    print("ROC AUC score:", roc_auc_score(z_dvl,z_gmm))
    print("False negative rate %:", fnr)
    print("False positive rate %:", fpr)
    print("EER %: <=", (fnr+fpr)/2)
>> *)
Definition performance_evaluation (z_gmm : list Q) (z_dvl : list Z) (thr : Q)
    : outcome performance :=
  humans ← mask_index z_gmm (np_eq z_dvl 0);
  spoofed ← mask_index z_gmm (np_eq z_dvl 1);
  let fnr := fmulc 100 (fsub (Fin 1)
               (true_divide (np_sum (np_lt humans thr)) (len humans))) in
  let fpr := fmulc 100 (fsub (Fin 1)
               (true_divide (np_sum (np_ge spoofed thr)) (len spoofed))) in
  auc ← roc_auc_score z_dvl z_gmm;
  Returns {| perf_auc := auc; perf_fnr := fnr; perf_fpr := fpr;
             perf_bound := fdivc (fadd fnr fpr) 2 |}.

(** The same on a score set: the decisions are those of the loop, the labels
    are the [z] column and [thr] is the value the cell gives it. *)
Definition performance_set (s : ScoreSet) : outcome performance :=
  performance_evaluation (map hard_decision (scores_of s)) (z_column (labels_of s)) (5 # 10).

(** A count as a rational. *)
Definition qn (n : nat) : Q := inject_Z (Z.of_nat n).

(** ** Protocol tables and the loading cell *)

(** A row of a protocol table: [names=['folder','file','method','source']]. *)
Record row : Type := Row {
  folder : string;
  file : string;
  method : string;
  source : label
}.

(** The rows that the subfolder list keeps; an empty list keeps all:
<<
    if len(train_subfls): train = train[train.folder.isin(train_subfls)]
>> *)
Definition select_subfolders (subfls : list string) (table : list row) : list row :=
  if Nat.eqb (length subfls) 0 then table
  else mask_select table (map (fun r => bool_decide (folder r ∈ subfls)) table).

(** The order of [sort_values(['folder', 'file'])]: by folder, then by file,
    strings compared character by character. *)
Definition row_leb (r1 r2 : row) : bool :=
  match String.compare (folder r1) (folder r2) with
  | Lt => true
  | Eq => String.leb (file r1) (file r2)
  | Gt => false
  end.

Definition row_le (r1 r2 : row) : Prop := row_leb r1 r2 = true.

(** pandas sorts on several columns with a stable sort; the result is the one
    of a stable insertion sort. *)
Fixpoint insert_row (r : row) (sorted : list row) : list row :=
  match sorted with
  | [] => [r]
  | x :: rest => if row_leb r x then r :: sorted else x :: insert_row r rest
  end.

Definition sort_values (table : list row) : list row := foldr insert_row [] table.

(** One table of the loading cell, from the rows that [read_csv] returns:
<<
    devel = pd.read_csv(LABEL_FOLDER + 'cm_develop.ndx', ...)
    if len(devel_subfls): devel = devel[devel.folder.isin(devel_subfls)]
    devel.sort_values(['folder', 'file'], inplace=True)
>> *)
Definition load_table (subfls : list string) (csv : list row) : list row :=
  sort_values (select_subfolders subfls csv).

(** Rows in non-decreasing order of their folder. *)
Definition folder_le (r1 r2 : row) : Prop := String.leb (folder r1) (folder r2) = true.

(** ** The scoring cell on a table *)

(** [ground_truth.folder.unique()]: the values in the order of their first
    appearance. *)
Fixpoint unique_from (seen values : list string) : list string :=
  match values with
  | [] => []
  | x :: rest =>
      if bool_decide (x ∈ seen) then unique_from seen rest
      else x :: unique_from (x :: seen) rest
  end.

Definition unique (values : list string) : list string := unique_from [] values.

(** [list(ground_truth[ground_truth.folder==speaker_id].file)] *)
Definition f_list (ground_truth : list row) (speaker_id : string) : list string :=
  map file (filter (fun r => folder r = speaker_id) ground_truth).

(** ["".join([folder,f,'.wav'])] with [folder = "".join(['Wav/',speaker_id,'/'])] *)
Definition wav_name (speaker_id f : string) : string :=
  ("Wav/" +:+ speaker_id +:+ "/") +:+ f +:+ ".wav".

Section ScoringTable.
(** What the library calls make of a file: [cepstrum(vad_data)] for the audio
    read from it. *)
Variable features_of : string -> FeatureMatrix.
Variables gmm_nat gmm_synt : DensityModel.

(** The two nested loops of the cell:
<<
    for speaker_id in speaker_list:
        f_list = list(ground_truth[ground_truth.folder==speaker_id].file)
        folder = "".join(['Wav/',speaker_id,'/'])
        for f in f_list:
            f_name = "".join([folder,f,'.wav'])
            ...
>> *)
Fixpoint speaker_loop (ground_truth : list row) (st : loop_state)
    (speaker_list : list string) : outcome loop_state :=
  match speaker_list with
  | [] => Returns st
  | speaker_id :: rest =>
      st' ← scoring_loop gmm_nat gmm_synt st
              (map (fun f => features_of (wav_name speaker_id f))
                   (f_list ground_truth speaker_id));
      speaker_loop ground_truth st' rest
  end.

Definition scoring_cell_table (ground_truth : list row) : outcome loop_state :=
  speaker_loop ground_truth (init_state (length ground_truth) (5 # 10))
    (unique (map folder ground_truth)).

(** The features of the utterance of a row. *)
Definition row_features (r : row) : FeatureMatrix :=
  features_of (wav_name (folder r) (file r)).
End ScoringTable.

(** The rows in the order in which the two loops take them. *)
Definition visited (ground_truth : list row) : list row :=
  flat_map (fun speaker_id => filter (fun r => folder r = speaker_id) ground_truth)
           (unique (map folder ground_truth)).

(** A table of two speakers, in sorted order and with the rows of the first
    speaker apart. *)
Definition example_table : list row :=
  [Row "D1" "a" "human" human; Row "D1" "bb" "S1" spoof; Row "D2" "ccc" "human" human].

Definition example_table_unsorted : list row :=
  [Row "D1" "a" "human" human; Row "D2" "ccc" "human" human; Row "D1" "bb" "S1" spoof].

(** Features for the examples: as many frames as the file name has
    characters. *)
Definition example_features (f_name : string) : FeatureMatrix :=
  replicate (String.length f_name) [0].

(** ** Feature extraction for the training stage *)

(** [EXT = '.wav'] *)
Definition EXT : string := ".wav".

(** [f_name[:-len(EXT)]]: the name without its last four characters, the
    empty string when it has no more than four. *)
Definition strip_ext (f_name : string) : string :=
  String.substring 0 (String.length f_name - String.length EXT) f_name.

(** [ground_truth[ground_truth.file==name].source.values[0]]: the source of
    the first row with that file name, in whatever folder; IndexError when
    there is none. *)
Definition first_source (ground_truth : list row) (name : string) : outcome label :=
  match filter (fun r => file r = name) ground_truth with
  | r :: _ => Returns (source r)
  | [] => Raises IndexError
  end.

(** The class of a label as the float that [y] stores. *)
Definition class_value (l : label) : Q := inject_Z (label_2_class l).

Module Training.

(** The variables that the extraction loop writes. *)
Record state : Type := State {
  features : list FeatureMatrix;
  y : list Q;
  k : nat
}.

Section Extraction.
(** [os.listdir], and what the library calls make of a file. *)
Variable listdir : string -> list string.
Variable features_of : string -> FeatureMatrix.
Variable ground_truth : list row.

(** The body of the inner loop, for the path [folder] of the directory:
<<
        try:
            label = ground_truth[ground_truth.file==f_name[:-len(EXT)]].source.values[0]
        except IndexError:
            continue
        y[k] = label_2_class[label]
        ...
        features.append(mfcc)
        k += 1
>> *)
Definition file_body (folder : string) (st : state) (f_name : string) : outcome state :=
  match first_source ground_truth (strip_ext f_name) with
  | Raises IndexError => Returns st
  | Raises e => Raises e
  | Returns label =>
      y' ← setitem (y st) (k st) (class_value label);
      Returns {| features := features st ++ [features_of (folder +:+ f_name)];
                 y := y';
                 k := S (k st) |}
  end.

Fixpoint file_loop (folder : string) (st : state) (f_list : list string) : outcome state :=
  match f_list with
  | [] => Returns st
  | f_name :: rest => st' ← file_body folder st f_name; file_loop folder st' rest
  end.

(** ["".join(('Wav/',folder,'/'))] *)
Definition wav_folder (folder : string) : string := "Wav/" +:+ folder +:+ "/".

Fixpoint folder_loop (st : state) (subfolders : list string) : outcome state :=
  match subfolders with
  | [] => Returns st
  | folder :: rest =>
      st' ← file_loop (wav_folder folder) st (listdir (wav_folder folder));
      folder_loop st' rest
  end.

(** The cell, for the subfolder list and the value of [n_subfls] (a variable
    that the cell reads and a later cell assigns):
<<
    features = []
    y = np.zeros((len(ground_truth),))
    k = 0
    for folder in subfolders[0:n_subfls]:
>> *)
Definition extraction (subfolders : list string) (n_subfls : nat) : outcome state :=
  folder_loop {| features := []; y := np_zeros (length ground_truth); k := 0 |}
    (take n_subfls subfolders).

(** The files of one directory that have a row, with their path and their
    label, in the order of the listing. *)
Definition matched_in (folder : string) (f_list : list string) : list (string * label) :=
  flat_map (fun f_name =>
              match first_source ground_truth (strip_ext f_name) with
              | Returns label => [(folder +:+ f_name, label)]
              | Raises _ => []
              end) f_list.

Definition matched (subfolders : list string) : list (string * label) :=
  flat_map (fun folder => matched_in (wav_folder folder) (listdir (wav_folder folder)))
           subfolders.

(** The state [st] after the loops have taken the matched files [m]. *)
Definition after_files (st : state) (m : list (string * label)) : state :=
  {| features := features st ++ map (fun p => features_of p.1) m;
     y := written (k st) (map (fun p => class_value p.2) m) (y st);
     k := (k st + length m)%nat |}.
End Extraction.

End Training.

(** A directory listing for the examples: the folder of speaker T1 holds two
    utterances of the table, a file without a row and a text file. *)
Definition example_listdir (folder : string) : list string :=
  if String.eqb folder "Wav/T1/" then ["b.wav"; "x.wav"; "a.wav"; "a.txt"] else [].

Definition example_train : list row :=
  [Row "T1" "a" "human" human; Row "T1" "b" "S1" spoof; Row "T1" "c" "S2" spoof].

(** ** Training data of the two GMMs *)

(** [y == c] on a float array. *)
Definition np_eq_float (y : list Q) (c : Q) : list bool := map (fun v => Qeq_bool v c) y.

(** [np.vstack(ms)]: the frames of the matrices, one matrix after the other;
    ValueError when there is no matrix or when the frames differ in width. *)
Definition np_vstack (ms : list FeatureMatrix) : outcome FeatureMatrix :=
  match ms with
  | [] => Raises ValueError
  | _ =>
      match concat ms with
      | [] => Returns []
      | frame :: rest =>
          if forallb (fun g => Nat.eqb (length g) (length frame)) rest
          then Returns (frame :: rest)
          else Raises ValueError
      end
  end.

(** The data on which a GMM is trained, [np.vstack(Xf[y==1])] for natural
    speech and [np.vstack(Xf[y==0])] for synthetic speech. *)
Definition training_frames (Xf : list FeatureMatrix) (y : list Q) (c : Q)
    : outcome FeatureMatrix :=
  selected ← mask_index Xf (np_eq_float y c);
  np_vstack selected.

(** * Properties *)

(** One step of a computation in [outcome]. *)
Ltac run_bind := cbn [mbind outcome_bind].

(** ** Comparisons and division *)

Lemma Qlt_bool_iff (x y : Q) : Qlt_bool x y = true <-> x < y.
Proof.
  unfold Qlt_bool. rewrite negb_true_iff. split.
  - intros H. apply Qnot_le_lt. intros Hle.
    apply Qle_bool_iff in Hle. congruence.
  - intros H. destruct (Qle_bool y x) eqn:E; [|reflexivity].
    apply Qle_bool_iff in E. destruct (Qlt_not_le _ _ H E).
Qed.

Lemma Qlt_bool_false (x y : Q) : Qlt_bool x y = false <-> ~ x < y.
Proof.
  rewrite <- Qlt_bool_iff. destruct (Qlt_bool x y); split; congruence.
Qed.

Lemma len_pos {A : Type} (l : list A) : l <> [] -> (0 < len l)%Z.
Proof. destruct l; [congruence | unfold len; cbn; lia]. Qed.

Lemma true_divide_fin (n d : Z) :
  d <> 0%Z -> true_divide n d = Fin (inject_Z n / inject_Z d).
Proof.
  intros Hd. unfold true_divide.
  destruct (Z.eqb_spec d 0); [contradiction | reflexivity].
Qed.

Lemma true_divide_percent (hits : nat) (l : list Q) :
  l <> [] ->
  exists q, true_divide (100 * Z.of_nat hits) (len l) = Fin q /\
            q == percent hits (length l).
Proof.
  intros Hl. eexists. split.
  - apply true_divide_fin. pose proof (len_pos l Hl). lia.
  - unfold percent, len. rewrite inject_Z_mult. reflexivity.
Qed.

(** ** The two classes of the cell *)

Lemma length_mask (s : ScoreSet) (c : Z) :
  length (scores_of s) = length (np_eq (z_column (labels_of s)) c).
Proof.
  unfold scores_of, np_eq, z_column, labels_of. now rewrite !length_map.
Qed.

(** [pz[z==1]] holds the scores of the human-labelled utterances: the cell
    calls it [spoofed]. *)
Lemma mask_select_one (s : ScoreSet) :
  mask_select (scores_of s) (np_eq (z_column (labels_of s)) 1) = class_scores human s.
Proof.
  induction s as [|[c x] s IH]; [reflexivity|].
  unfold class_scores. rewrite filter_cons.
  destruct c; cbn [fst].
  - rewrite decide_True by reflexivity. cbn. f_equal. exact IH.
  - rewrite decide_False by discriminate. exact IH.
Qed.

(** [pz[z==0]] holds the scores of the spoof-labelled utterances: the cell
    calls it [humans]. *)
Lemma mask_select_zero (s : ScoreSet) :
  mask_select (scores_of s) (np_eq (z_column (labels_of s)) 0) = class_scores spoof s.
Proof.
  induction s as [|[c x] s IH]; [reflexivity|].
  unfold class_scores. rewrite filter_cons.
  destruct c; cbn [fst].
  - rewrite decide_False by discriminate. exact IH.
  - rewrite decide_True by reflexivity. cbn. f_equal. exact IH.
Qed.

Lemma np_sum_gt (l : list Q) (t : Q) :
  np_sum (np_gt l t) = Z.of_nat (count_gt t l).
Proof.
  unfold count_gt. induction l as [|x l IH]; [reflexivity|].
  rewrite filter_cons. cbn [np_gt map np_sum fold_right].
  fold (np_gt l t). fold (np_sum (np_gt l t)). rewrite IH.
  destruct (decide (t < x)) as [H | H].
  - apply Qlt_bool_iff in H. rewrite H. cbn [length Z.b2z]. lia.
  - apply Qlt_bool_false in H. rewrite H. cbn [Z.b2z]. lia.
Qed.

Lemma np_sum_le (l : list Q) (t : Q) :
  np_sum (np_le l t) = Z.of_nat (count_le t l).
Proof.
  unfold count_le. induction l as [|x l IH]; [reflexivity|].
  rewrite filter_cons. cbn [np_le map np_sum fold_right].
  fold (np_le l t). fold (np_sum (np_le l t)). rewrite IH.
  destruct (decide (x <= t)) as [H | H].
  - apply Qle_bool_iff in H. rewrite H. cbn [length Z.b2z]. lia.
  - destruct (Qle_bool x t) eqn:E.
    + apply Qle_bool_iff in E. contradiction.
    + cbn [Z.b2z]. lia.
Qed.

(** The rates of the cell in closed form: [fnr] is computed from the
    spoof-labelled scores and [fpr] from the human-labelled ones. *)
Lemma estimate_set_unfold (s : ScoreSet) (t : Q) :
  estimate_set s t =
  Returns
    (true_divide (100 * Z.of_nat (count_gt t (class_scores spoof s)))
                 (len (class_scores spoof s)),
     true_divide (100 * Z.of_nat (count_le t (class_scores human s)))
                 (len (class_scores human s))).
Proof.
  unfold estimate_set, estimate, mask_index.
  rewrite <- !length_mask, Nat.eqb_refl. run_bind.
  rewrite mask_select_one, mask_select_zero, np_sum_gt, np_sum_le.
  reflexivity.
Qed.

Lemma estimate64_set_unfold (s : ScoreSet) (t : Q) :
  estimate64_set s t =
  Returns
    (b64_percent (count_gt t (class_scores spoof s)) (length (class_scores spoof s)),
     b64_percent (count_le t (class_scores human s)) (length (class_scores human s))).
Proof.
  unfold estimate64_set, estimate64, mask_index.
  rewrite <- !length_mask, Nat.eqb_refl. run_bind.
  rewrite mask_select_one, mask_select_zero, np_sum_gt, np_sum_le.
  reflexivity.
Qed.

(** The cell on a score set, by the counts of the two classes. *)
Lemma eer_cell_set_unfold (s : ScoreSet) (t : Q) :
  eer_cell_set s t =
  (let fnr := true_divide (100 * Z.of_nat (count_gt t (class_scores spoof s)))
                          (len (class_scores spoof s)) in
   let fpr := true_divide (100 * Z.of_nat (count_le t (class_scores human s)))
                          (len (class_scores human s)) in
   Returns {| rep_fnr := fnr;
              rep_fpr := fpr;
              rep_diff := b64_rate_difference s t;
              rep_exact := b64_lt (b64_abs (b64_rate_difference s t)) b64_quarter;
              rep_eer := fdivc (fadd fnr fpr) 2 |}).
Proof.
  unfold eer_cell_set, eer_cell.
  change (estimate (scores_of s) (z_column (labels_of s)) t) with (estimate_set s t).
  change (estimate64 (scores_of s) (z_column (labels_of s)) t) with (estimate64_set s t).
  rewrite estimate_set_unfold, estimate64_set_unfold. reflexivity.
Qed.

(** nan propagates through the difference, and compares below nothing. *)
Lemma b64_sub_nan_l (y : binary64) : b64_sub S754_nan y = S754_nan.
Proof. reflexivity. Qed.

Lemma b64_sub_nan_r (x : binary64) : b64_sub x S754_nan = S754_nan.
Proof. now destruct x. Qed.

Lemma count_gt_antitone (t1 t2 : Q) (l : list Q) :
  t1 <= t2 -> (count_gt t2 l <= count_gt t1 l)%nat.
Proof.
  intros Ht. unfold count_gt. induction l as [|x l IH]; [reflexivity|].
  rewrite !filter_cons.
  destruct (decide (t2 < x)) as [H2 | H2], (decide (t1 < x)) as [H1 | H1];
    cbn [length]; try lia.
  destruct H1. exact (Qle_lt_trans _ _ _ Ht H2).
Qed.

Lemma count_le_monotone (t1 t2 : Q) (l : list Q) :
  t1 <= t2 -> (count_le t1 l <= count_le t2 l)%nat.
Proof.
  intros Ht. unfold count_le. induction l as [|x l IH]; [reflexivity|].
  rewrite !filter_cons.
  destruct (decide (x <= t1)) as [H1 | H1], (decide (x <= t2)) as [H2 | H2];
    cbn [length]; try lia.
  destruct H2. exact (Qle_trans _ _ _ H1 Ht).
Qed.

Lemma percent_monotone (a b n : nat) :
  (a <= b)%nat -> percent a n <= percent b n.
Proof.
  intros Hab. unfold percent, Qdiv.
  apply Qmult_le_compat_r.
  - apply Qmult_le_l; [reflexivity|]. rewrite <- Zle_Qle. lia.
  - apply Qinv_le_0_compat. change 0 with (inject_Z 0). rewrite <- Zle_Qle. lia.
Qed.

(** ** Rates of the EER cell *)

(** C2, as amended.  For every score set with non-empty human and spoof
    classes and every threshold [t], [estimate] returns [fnr] = 100 times the
    fraction of spoof-labelled samples whose score is [> t] and [fpr] = 100
    times the fraction of human-labelled samples whose score is [<= t]; the
    label array is the one of [label_2_class]: human=1, spoof=0. *)
Theorem estimate_rates (s : ScoreSet) (t : Q) :
  class_scores human s <> [] ->
  class_scores spoof s <> [] ->
  exists fnr fpr,
    estimate_set s t = Returns (Fin fnr, Fin fpr) /\
    fnr == percent (count_gt t (class_scores spoof s)) (length (class_scores spoof s)) /\
    fpr == percent (count_le t (class_scores human s)) (length (class_scores human s)) /\
    z_column (labels_of s) = map label_2_class (labels_of s).
Proof.
  intros Hh Hs.
  destruct (true_divide_percent (count_gt t (class_scores spoof s)) _ Hs)
    as (fnr & Efnr & Hfnr).
  destruct (true_divide_percent (count_le t (class_scores human s)) _ Hh)
    as (fpr & Efpr & Hfpr).
  exists fnr, fpr. rewrite estimate_set_unfold, Efnr, Efpr.
  repeat split; try assumption.
  unfold z_column. apply map_ext. now intros [].
Qed.

Lemma estimate_rates_witness :
  class_scores human example_set <> [] /\
  class_scores spoof example_set <> [] /\
  exists fnr fpr,
    estimate_set example_set 0 = Returns (Fin fnr, Fin fpr) /\
    fnr == percent (count_gt 0 (class_scores spoof example_set))
                   (length (class_scores spoof example_set)) /\
    fpr == percent (count_le 0 (class_scores human example_set))
                   (length (class_scores human example_set)) /\
    z_column (labels_of example_set) = map label_2_class (labels_of example_set).
Proof.
  split; [vm_compute; discriminate|].
  split; [vm_compute; discriminate|].
  apply (estimate_rates example_set 0); vm_compute; discriminate.
Defined.

(** C2, counterexample.  One human-labelled and one spoof-labelled utterance,
    both with score 1, threshold 0.  The claim gives fnr = 0 (no human score
    is [<= 0]) and fpr = 100 (the spoof score is [> 0]); the cell returns
    fnr = 100 and fpr = 0.  It returns the same when the label array is
    written with human=0, spoof=1. *)
Lemma estimate_rates_counterexample :
  estimate_set [(human, 1); (spoof, 1)] 0 = Returns (Fin 100, Fin 0) /\
  percent (count_le 0 (class_scores human [(human, 1); (spoof, 1)]))
          (length (class_scores human [(human, 1); (spoof, 1)])) == 0 /\
  percent (count_gt 0 (class_scores spoof [(human, 1); (spoof, 1)]))
          (length (class_scores spoof [(human, 1); (spoof, 1)])) == 100 /\
  estimate [1; 1] [0; 1]%Z 0 = Returns (Fin 100, Fin 0) /\
  ~ 100 == 0.
Proof.
  repeat split; try (vm_compute; reflexivity).
  intros H. vm_compute in H. discriminate H.
Qed.

(** C8, as amended.  For the score set {h1:0.6, h2:0.4, s1:-0.3, s2:0.1} with
    human-labelled {h1,h2} and spoof-labelled {s1,s2}, [estimate] at threshold
    0 returns fnr = 50% (s2, spoof-labelled, scores above 0) and fpr = 0%. *)
Theorem estimate_example_set :
  exists fnr fpr,
    estimate_set example_set 0 = Returns (Fin fnr, Fin fpr) /\
    fnr == 50 /\ fpr == 0.
Proof.
  exists (100 # 2), (0 # 2). repeat split.
Qed.

(** C8, counterexample.  On that score set the cell returns fnr = 100/2 and
    fpr = 0/2, not fnr = 0 and fpr = 50. *)
Lemma estimate_example_set_counterexample :
  estimate_set example_set 0 = Returns (Fin (100 # 2), Fin (0 # 2)) /\
  ~ (100 # 2) == 0 /\
  ~ (0 # 2) == 50.
Proof.
  split; [reflexivity|].
  split; intros H; vm_compute in H; discriminate H.
Qed.

(** C7, as amended.  For a fixed score set with both classes non-empty the
    rates are monotone in the threshold, [fnr] downwards and [fpr] upwards:
    for [t1 <= t2], fnr(t2) <= fnr(t1) and fpr(t1) <= fpr(t2). *)
Theorem estimate_monotone (s : ScoreSet) (t1 t2 : Q) :
  t1 <= t2 ->
  class_scores human s <> [] ->
  class_scores spoof s <> [] ->
  exists fnr1 fpr1 fnr2 fpr2,
    estimate_set s t1 = Returns (Fin fnr1, Fin fpr1) /\
    estimate_set s t2 = Returns (Fin fnr2, Fin fpr2) /\
    fnr2 <= fnr1 /\ fpr1 <= fpr2.
Proof.
  intros Ht Hh Hs.
  destruct (true_divide_percent (count_gt t1 (class_scores spoof s)) _ Hs)
    as (fnr1 & E1 & H1).
  destruct (true_divide_percent (count_le t1 (class_scores human s)) _ Hh)
    as (fpr1 & E2 & H2).
  destruct (true_divide_percent (count_gt t2 (class_scores spoof s)) _ Hs)
    as (fnr2 & E3 & H3).
  destruct (true_divide_percent (count_le t2 (class_scores human s)) _ Hh)
    as (fpr2 & E4 & H4).
  exists fnr1, fpr1, fnr2, fpr2.
  rewrite !estimate_set_unfold, E1, E2, E3, E4.
  repeat split.
  - rewrite H1, H3. apply percent_monotone, count_gt_antitone, Ht.
  - rewrite H2, H4. apply percent_monotone, count_le_monotone, Ht.
Qed.

Lemma estimate_monotone_witness :
  0 <= 1 /\
  exists fnr1 fpr1 fnr2 fpr2,
    estimate_set example_set 0 = Returns (Fin fnr1, Fin fpr1) /\
    estimate_set example_set 1 = Returns (Fin fnr2, Fin fpr2) /\
    fnr2 <= fnr1 /\ fpr1 <= fpr2.
Proof.
  split; [vm_compute; discriminate|].
  apply (estimate_monotone example_set 0 1); vm_compute; discriminate.
Defined.

(** C7, counterexample.  On the example score set, raising the threshold from
    0 to 1 lowers [fnr] from 50 to 0 and raises [fpr] from 0 to 100. *)
Lemma estimate_monotone_counterexample :
  estimate_set example_set 0 = Returns (Fin (100 # 2), Fin (0 # 2)) /\
  estimate_set example_set 1 = Returns (Fin (0 # 2), Fin (200 # 2)) /\
  0 <= 1 /\
  ~ (100 # 2) <= (0 # 2) /\
  ~ (200 # 2) <= (0 # 2).
Proof.
  split; [reflexivity|]. split; [reflexivity|].
  split; [vm_compute; discriminate|].
  split; intros H; vm_compute in H; apply H; reflexivity.
Qed.

(** C4, as amended.  [estimate] has no guard on the class sizes and raises
    nothing: for every score set and threshold it returns a pair.  The rate
    of an empty class is nan ([fnr] for the spoof-labelled class, [fpr] for
    the human-labelled one); the rate of a non-empty class is a finite
    number, the percentage of its scores above, respectively at most, the
    threshold. *)
Theorem estimate_empty_class (s : ScoreSet) (t : Q) :
  exists fnr fpr,
    estimate_set s t = Returns (fnr, fpr) /\
    ((class_scores spoof s = [] /\ fnr = NaN) \/
     (class_scores spoof s <> [] /\
      exists q, fnr = Fin q /\
                q == percent (count_gt t (class_scores spoof s))
                             (length (class_scores spoof s)))) /\
    ((class_scores human s = [] /\ fpr = NaN) \/
     (class_scores human s <> [] /\
      exists q, fpr = Fin q /\
                q == percent (count_le t (class_scores human s))
                             (length (class_scores human s)))).
Proof.
  rewrite estimate_set_unfold. eexists _, _. split; [reflexivity|].
  split.
  - destruct (class_scores spoof s) as [|x l] eqn:E.
    + left. split; reflexivity.
    + right. split; [discriminate|].
      apply true_divide_percent. discriminate.
  - destruct (class_scores human s) as [|x l] eqn:E.
    + left. split; reflexivity.
    + right. split; [discriminate|].
      apply true_divide_percent. discriminate.
Qed.

(** C4, counterexample.  A score set with one human-labelled utterance and no
    spoof-labelled one: [estimate] returns the pair (nan, 0) and raises
    nothing. *)
Lemma estimate_empty_class_counterexample :
  class_scores spoof [(human, 6 # 10)] = [] /\
  estimate_set [(human, 6 # 10)] 0 = Returns (NaN, Fin 0) /\
  ~ raises (estimate_set [(human, 6 # 10)] 0).
Proof.
  split; [reflexivity|]. split; [reflexivity|].
  intros [e He]. discriminate He.
Qed.

(** ** The scoring loop *)

Lemma setitem_returns (a : list Q) (i : nat) (v : Q) :
  (i < length a)%nat -> setitem a i v = Returns (<[i:=v]> a).
Proof. intros Hi. unfold setitem. now rewrite decide_True. Qed.

Lemma getitem_insert (a : list Q) (i : nat) (v : Q) :
  (i < length a)%nat -> getitem (<[i:=v]> a) i = Returns v.
Proof. intros Hi. unfold getitem. now rewrite list_lookup_insert_eq. Qed.

Lemma written_step (i : nat) (v : Q) (vals old : list Q) :
  (i < length old)%nat ->
  written (S i) vals (<[i:=v]> old) = written i (v :: vals) old.
Proof.
  intros Hi. unfold written.
  rewrite (take_S_r _ i v) by now apply list_lookup_insert_eq.
  rewrite take_insert_ge by lia.
  rewrite drop_insert_lt by lia.
  rewrite <- app_assoc. cbn [app length].
  now replace (i + S (length vals))%nat with (S i + length vals)%nat by lia.
Qed.

Lemma written_zeros (vals : list Q) :
  written 0 vals (np_zeros (length vals)) = vals.
Proof.
  unfold written, np_zeros. rewrite take_0. cbn [app plus].
  rewrite drop_ge by now rewrite length_replicate.
  apply app_nil_r.
Qed.

Section ScoringProperties.
Variables gmm_nat gmm_synt : DensityModel.

Lemma score_returns (F : FeatureMatrix) (a b : Q) :
  gmm_nat F = Returns a -> gmm_synt F = Returns b ->
  score gmm_nat gmm_synt F = Returns (a - b).
Proof. intros Ha Hb. unfold score. now rewrite Ha, Hb. Qed.

Lemma loop_body_returns (st : loop_state) (F : FeatureMatrix) (v : Q) :
  score gmm_nat gmm_synt F = Returns v ->
  (k st < length (llr_gmm_score st))%nat ->
  (k st < length (z_gmm st))%nat ->
  loop_body gmm_nat gmm_synt st F =
  Returns {| llr_gmm_score := <[k st := v]> (llr_gmm_score st);
             z_gmm := <[k st := hard_decision v]> (z_gmm st);
             k := S (k st);
             thr := thr st |}.
Proof.
  intros Hv Hl Hz. unfold loop_body. rewrite Hv. run_bind.
  rewrite setitem_returns by assumption. run_bind.
  rewrite getitem_insert by assumption. run_bind.
  rewrite setitem_returns by assumption. reflexivity.
Qed.

(** The loop in closed form: it writes the scores and their hard decisions
    from index [k] on and leaves [thr] alone. *)
Lemma scoring_loop_returns (mfccs : list FeatureMatrix) :
  forall (vals : list Q) (st : loop_state),
    Forall2 (fun F v => score gmm_nat gmm_synt F = Returns v) mfccs vals ->
    (k st + length mfccs <= length (llr_gmm_score st))%nat ->
    (k st + length mfccs <= length (z_gmm st))%nat ->
    scoring_loop gmm_nat gmm_synt st mfccs =
    Returns {| llr_gmm_score := written (k st) vals (llr_gmm_score st);
               z_gmm := written (k st) (map hard_decision vals) (z_gmm st);
               k := (k st + length mfccs)%nat;
               thr := thr st |}.
Proof.
  induction mfccs as [|F mfccs IH]; intros vals st Hvals Hl Hz.
  - apply Forall2_nil_inv_l in Hvals. subst vals. cbn [scoring_loop map].
    unfold written. cbn [app length]. rewrite !Nat.add_0_r, !take_drop.
    now destruct st.
  - apply Forall2_cons_inv_l in Hvals. destruct Hvals as (v & vals' & Hv & Hvals & ->).
    cbn [length] in Hl, Hz. cbn [scoring_loop].
    rewrite (loop_body_returns st F v Hv) by lia. run_bind.
    rewrite (IH vals') by (cbn [llr_gmm_score z_gmm k]; rewrite ?length_insert; (assumption || lia)).
    cbn [llr_gmm_score z_gmm k thr map length].
    rewrite !written_step by lia.
    now replace (S (k st) + length mfccs)%nat with (k st + S (length mfccs))%nat by lia.
Qed.

Lemma scores_exist (mfccs : list FeatureMatrix) :
  Forall (fun F => returns (gmm_nat F) /\ returns (gmm_synt F)) mfccs ->
  exists vals, Forall2 (fun F v => score gmm_nat gmm_synt F = Returns v) mfccs vals.
Proof.
  induction 1 as [|F mfccs [[a Ha] [b Hb]] _ [vals IH]].
  - exists []. constructor.
  - exists ((a - b) :: vals). constructor; [now apply score_returns | exact IH].
Qed.

(** The cell's arrays after the loop: the scores, and their hard decisions. *)
Lemma scoring_cell_returns (mfccs : list FeatureMatrix) (vals : list Q) (thr0 : Q) :
  Forall2 (fun F v => score gmm_nat gmm_synt F = Returns v) mfccs vals ->
  scoring_loop gmm_nat gmm_synt (init_state (length mfccs) thr0) mfccs =
  Returns {| llr_gmm_score := vals;
             z_gmm := map hard_decision vals;
             k := length mfccs;
             thr := thr0 |}.
Proof.
  intros Hvals. pose proof (Forall2_length _ _ _ Hvals) as Hlen.
  rewrite (scoring_loop_returns mfccs vals) by
    (try assumption; cbn; unfold np_zeros; rewrite length_replicate; lia).
  cbn [init_state llr_gmm_score z_gmm k thr plus].
  rewrite Hlen, written_zeros.
  rewrite <- (length_map hard_decision vals), written_zeros.
  reflexivity.
Qed.

End ScoringProperties.

(** ** Scores and decisions *)

(** C1.  For every pair of density models and every feature matrix [F] on
    which they return the log-likelihoods [a] and [b], the score is [a - b].
    The loop body stores it in slot [k] of [llr_gmm_score] and changes nothing
    but slot [k] of the two arrays and the counter; the models and the feature
    matrix are values that the body only reads. *)
Theorem score_is_llr (natural synthetic : DensityModel) (st : loop_state)
    (F : FeatureMatrix) (a b : Q) :
  natural F = Returns a ->
  synthetic F = Returns b ->
  (k st < length (llr_gmm_score st))%nat ->
  (k st < length (z_gmm st))%nat ->
  score natural synthetic F = Returns (a - b) /\
  exists st',
    loop_body natural synthetic st F = Returns st' /\
    llr_gmm_score st' !! k st = Some (a - b) /\
    (forall j, j <> k st ->
       llr_gmm_score st' !! j = llr_gmm_score st !! j /\
       z_gmm st' !! j = z_gmm st !! j) /\
    k st' = S (k st) /\
    thr st' = thr st.
Proof.
  intros Ha Hb Hl Hz.
  pose proof (score_returns natural synthetic F a b Ha Hb) as Hs.
  split; [exact Hs|].
  eexists. split; [apply (loop_body_returns _ _ st F _ Hs Hl Hz)|].
  cbn [llr_gmm_score z_gmm k thr]. repeat split.
  - now apply list_lookup_insert_eq.
  - now apply list_lookup_insert_ne.
  - now apply list_lookup_insert_ne.
Qed.

Lemma score_is_llr_witness :
  score (frame_count_model 1) (frame_count_model 2) [[1; 2]] = Returns (1 * 1 - 2 * 1) /\
  exists st',
    loop_body (frame_count_model 1) (frame_count_model 2) (init_state 2 (5 # 10)) [[1; 2]]
      = Returns st' /\
    llr_gmm_score st' !! 0%nat = Some (1 * 1 - 2 * 1) /\
    (forall j, j <> 0%nat ->
       llr_gmm_score st' !! j = np_zeros 2 !! j /\
       z_gmm st' !! j = np_zeros 2 !! j) /\
    k st' = 1%nat /\
    thr st' = 5 # 10.
Proof.
  apply (score_is_llr (frame_count_model 1) (frame_count_model 2)
           (init_state 2 (5 # 10)) [[1; 2]] (1 * 1) (2 * 1));
    [reflexivity | reflexivity | simpl; lia | simpl; lia].
Defined.

(** C6.  For all density models [A] and [B] and every feature matrix on which
    both return, [score A B F] is the negation of [score B A F]. *)
Theorem score_antisymmetric (A B : DensityModel) (F : FeatureMatrix) (a b : Q) :
  A F = Returns a ->
  B F = Returns b ->
  exists x y,
    score A B F = Returns x /\ score B A F = Returns y /\ x == - y.
Proof.
  intros Ha Hb. exists (a - b), (b - a).
  split; [now apply score_returns|].
  split; [now apply score_returns|].
  ring.
Qed.

Lemma score_antisymmetric_witness :
  exists x y,
    score (frame_count_model 1) (frame_count_model 2) [[1; 2]] = Returns x /\
    score (frame_count_model 2) (frame_count_model 1) [[1; 2]] = Returns y /\
    x == - y.
Proof.
  apply (score_antisymmetric (frame_count_model 1) (frame_count_model 2)
           [[1; 2]] (1 * 1) (2 * 1)); reflexivity.
Defined.

(** C9, as amended.  [score] checks nothing about the feature matrix and has
    no error of its own: for every matrix, empty or of any dimension, it
    returns exactly when both models return on it, with the difference of
    their values, and otherwise fails with the failure of the model call that
    fails first (the natural model is called before the synthetic one). *)
Theorem score_failure_is_the_models (natural synthetic : DensityModel) (F : FeatureMatrix) :
  (forall v, score natural synthetic F = Returns v <->
             exists a b, natural F = Returns a /\ synthetic F = Returns b /\ v = a - b) /\
  (forall e, score natural synthetic F = Raises e <->
             natural F = Raises e \/ (returns (natural F) /\ synthetic F = Raises e)).
Proof.
  unfold score, returns.
  destruct (natural F) as [a|e1], (synthetic F) as [b|e2]; run_bind;
    split; intros x; split.
  all: try discriminate.
  all: try (intros (a' & b' & Ha & Hb & _); discriminate).
  all: try (intros [H | [[a' Ha] H]]; (discriminate || congruence)).
  - intros [= <-]. now exists a, b.
  - intros (a' & b' & [= <-] & [= <-] & ->). reflexivity.
  - intros [= <-]. right. split; [now exists a | reflexivity].
  - intros [= <-]. now left.
  - intros [= <-]. now left.
Qed.

(** C9, counterexample.  A density model that gives one unit per frame: on
    the empty feature matrix, and on a matrix whose frames have one
    coefficient instead of [n_ceps], [score] returns a value and raises
    nothing. *)
Lemma score_validation_counterexample :
  score (frame_count_model 1) (frame_count_model 2) [] = Returns (1 * 0 - 2 * 0) /\
  score (frame_count_model 1) (frame_count_model 2) [[1]] = Returns (1 * 1 - 2 * 1) /\
  length [1] <> n_ceps /\
  ~ raises (score (frame_count_model 1) (frame_count_model 2) []) /\
  ~ raises (score (frame_count_model 1) (frame_count_model 2) [[1]]).
Proof.
  split; [reflexivity|]. split; [reflexivity|].
  split; [discriminate|].
  split; intros [e He]; discriminate He.
Qed.

(** A model that rejects its input makes [score] fail with that rejection. *)
Example score_propagates_rejection :
  score (checked_model 2 1) (frame_count_model 2) [] = Raises LibraryError /\
  score (frame_count_model 2) (checked_model 2 1) [[1]] = Raises LibraryError /\
  score (checked_model 2 1) (checked_model 2 2) [[1; 2]] = Returns (1 * 1 - 2 * 1).
Proof. repeat split. Qed.

(** C10.  When the models return on every utterance, the loop returns with
    one slot written per utterance: [k] has counted them all, and for every
    utterance [i] the slot [llr_gmm_score[i]] holds the score of that
    utterance and the slot [z_gmm[i]] holds 1 exactly when that score is
    strictly greater than 0, and 0 otherwise.  [thr] is left as it was, and
    the arrays are the same whatever value [thr] has before the loop. *)
Theorem z_gmm_is_sign_of_llr (gmm_nat gmm_synt : DensityModel) (mfccs : list FeatureMatrix) :
  Forall (fun F => returns (gmm_nat F) /\ returns (gmm_synt F)) mfccs ->
  exists st,
    scoring_cell gmm_nat gmm_synt mfccs = Returns st /\
    k st = length mfccs /\
    thr st = 5 # 10 /\
    length (llr_gmm_score st) = length mfccs /\
    length (z_gmm st) = length mfccs /\
    (forall i F, mfccs !! i = Some F ->
       exists x d,
         score gmm_nat gmm_synt F = Returns x /\
         llr_gmm_score st !! i = Some x /\
         z_gmm st !! i = Some d /\
         ((0 < x /\ d = 1) \/ (~ 0 < x /\ d = 0))) /\
    (forall thr0, exists st0,
       scoring_loop gmm_nat gmm_synt (init_state (length mfccs) thr0) mfccs = Returns st0 /\
       llr_gmm_score st0 = llr_gmm_score st /\
       z_gmm st0 = z_gmm st).
Proof.
  intros Hret.
  destruct (scores_exist gmm_nat gmm_synt mfccs Hret) as [vals Hvals].
  pose proof (Forall2_length _ _ _ Hvals) as Hlen.
  eexists. split; [apply (scoring_cell_returns _ _ mfccs vals _ Hvals)|].
  cbn [llr_gmm_score z_gmm k thr].
  split; [reflexivity|].
  split; [reflexivity|].
  split; [now symmetry|].
  split; [now rewrite length_map|].
  split.
  - intros i F HF.
    destruct (Forall2_lookup_l _ _ _ _ _ Hvals HF) as (x & Hx & Hscore).
    exists x, (hard_decision x).
    split; [exact Hscore|]. split; [exact Hx|]. split.
    + change (map hard_decision vals) with (hard_decision <$> vals).
      now rewrite list_lookup_fmap, Hx.
    + unfold hard_decision. destruct (Qlt_bool 0 x) eqn:E.
      * left. split; [now apply Qlt_bool_iff | reflexivity].
      * right. split; [now apply Qlt_bool_false | reflexivity].
  - intros thr0. eexists. split; [apply (scoring_cell_returns _ _ mfccs vals _ Hvals)|].
    split; reflexivity.
Qed.

Lemma z_gmm_is_sign_of_llr_witness :
  exists st,
    scoring_cell (frame_count_model 2) (frame_count_model 1) example_utterances = Returns st /\
    k st = length example_utterances /\
    thr st = 5 # 10 /\
    length (llr_gmm_score st) = length example_utterances /\
    length (z_gmm st) = length example_utterances /\
    (forall i F, example_utterances !! i = Some F ->
       exists x d,
         score (frame_count_model 2) (frame_count_model 1) F = Returns x /\
         llr_gmm_score st !! i = Some x /\
         z_gmm st !! i = Some d /\
         ((0 < x /\ d = 1) \/ (~ 0 < x /\ d = 0))) /\
    (forall thr0, exists st0,
       scoring_loop (frame_count_model 2) (frame_count_model 1)
         (init_state (length example_utterances) thr0) example_utterances = Returns st0 /\
       llr_gmm_score st0 = llr_gmm_score st /\
       z_gmm st0 = z_gmm st).
Proof.
  apply (z_gmm_is_sign_of_llr (frame_count_model 2) (frame_count_model 1) example_utterances).
  repeat constructor; eexists; reflexivity.
Defined.

(** On the example utterances of one, no and two frames the scores are 1, 0
    and 2: the decision of the second stays 0 because its score is not above
    0, the other two are set to 1. *)
Example scoring_cell_example :
  scoring_cell (frame_count_model 2) (frame_count_model 1) example_utterances =
  Returns {| llr_gmm_score := [2 * 1 - 1 * 1; 2 * 0 - 1 * 0; 2 * 2 - 1 * 2];
             z_gmm := [1; 0; 1];
             k := 3;
             thr := 5 # 10 |}.
Proof. reflexivity. Qed.

(** ** The EER estimate of the cell *)

(** C3, as amended.  The cell does no search: it evaluates the rates at the
    one threshold it is given.  For every score set with both classes
    non-empty and every threshold, it reports [(fnr+fpr)/2] at that
    threshold.  The difference it prints is the float64 difference of the two
    float64 rates, and it reports the estimate as exact ([EER =]) if and only
    if the absolute value of that difference is below the constant 0.25 in
    float64, as approximate ([EER ~]) otherwise. *)
Theorem eer_cell_report (s : ScoreSet) (t : Q) :
  class_scores human s <> [] ->
  class_scores spoof s <> [] ->
  exists r fnr fpr eer,
    estimate_set s t = Returns (Fin fnr, Fin fpr) /\
    eer_cell_set s t = Returns r /\
    rep_fnr r = Fin fnr /\
    rep_fpr r = Fin fpr /\
    rep_eer r = Fin eer /\
    eer == (fnr + fpr) / 2 /\
    rep_diff r =
      b64_sub
        (b64_div (b64_of_Z (100 * Z.of_nat (count_gt t (class_scores spoof s))))
                 (b64_of_Z (Z.of_nat (length (class_scores spoof s)))))
        (b64_div (b64_of_Z (100 * Z.of_nat (count_le t (class_scores human s))))
                 (b64_of_Z (Z.of_nat (length (class_scores human s))))) /\
    (rep_exact r = true <-> b64_lt (b64_abs (rep_diff r)) b64_quarter = true).
Proof.
  intros Hh Hs.
  destruct (true_divide_percent (count_gt t (class_scores spoof s)) _ Hs)
    as (fnr & Efnr & _).
  destruct (true_divide_percent (count_le t (class_scores human s)) _ Hh)
    as (fpr & Efpr & _).
  assert (E : estimate_set s t = Returns (Fin fnr, Fin fpr))
    by now rewrite estimate_set_unfold, Efnr, Efpr.
  rewrite eer_cell_set_unfold, Efnr, Efpr. cbv zeta.
  eexists _, fnr, fpr, _. split; [exact E|]. split; [reflexivity|].
  cbn [rep_fnr rep_fpr rep_eer rep_exact rep_diff fadd fdivc].
  repeat split; try reflexivity; intros H; exact H.
Qed.

Lemma eer_cell_report_witness :
  exists r fnr fpr eer,
    estimate_set example_set thr_cell = Returns (Fin fnr, Fin fpr) /\
    eer_cell_set example_set thr_cell = Returns r /\
    rep_fnr r = Fin fnr /\
    rep_fpr r = Fin fpr /\
    rep_eer r = Fin eer /\
    eer == (fnr + fpr) / 2 /\
    rep_diff r =
      b64_sub
        (b64_div (b64_of_Z (100 * Z.of_nat (count_gt thr_cell (class_scores spoof example_set))))
                 (b64_of_Z (Z.of_nat (length (class_scores spoof example_set)))))
        (b64_div (b64_of_Z (100 * Z.of_nat (count_le thr_cell (class_scores human example_set))))
                 (b64_of_Z (Z.of_nat (length (class_scores human example_set))))) /\
    (rep_exact r = true <-> b64_lt (b64_abs (rep_diff r)) b64_quarter = true).
Proof.
  apply (eer_cell_report example_set thr_cell); vm_compute; discriminate.
Defined.

(** The comparison with [.25] is one of rounded values.  On [rounding_set] at
    the threshold 0 the rates are 100/112 and 200/175, exactly a quarter
    apart, so that [|fnr-fpr| < .25] fails in exact arithmetic; their float64
    difference is [-9007199254740988 * 2^-55], just above [-.25], and the
    cell prints [EER =]. *)
Example eer_cell_rounding :
  exists r fnr fpr,
    eer_cell_set rounding_set 0 = Returns r /\
    rep_fnr r = Fin fnr /\ fnr == 100 # 112 /\
    rep_fpr r = Fin fpr /\ fpr == 200 # 175 /\
    Qabs (fnr - fpr) == 25 # 100 /\
    rep_diff r = S754_finite true 9007199254740988 (-55) /\
    rep_exact r = true.
Proof.
  eexists _, _, _. split; [vm_compute; reflexivity|].
  cbn [rep_fnr rep_fpr rep_diff rep_exact].
  repeat split; reflexivity.
Qed.

(** With an empty class the cell still prints: the estimate is nan and is
    reported as approximate. *)
Lemma eer_cell_empty_class (s : ScoreSet) (t : Q) :
  class_scores human s = [] \/ class_scores spoof s = [] ->
  exists r, eer_cell_set s t = Returns r /\ rep_eer r = NaN /\ rep_exact r = false.
Proof.
  intros Hempty. rewrite eer_cell_set_unfold. cbv zeta.
  eexists. split; [reflexivity|]. cbn [rep_eer rep_exact].
  unfold b64_rate_difference.
  destruct Hempty as [-> | ->]; cbn [count_le count_gt filter length len Z.of_nat].
  - change (true_divide (100 * 0) 0) with NaN.
    change (b64_percent (count_le t []) 0) with S754_nan.
    rewrite b64_sub_nan_r.
    destruct (true_divide _ _); split; reflexivity.
  - change (true_divide (100 * 0) 0) with NaN.
    change (b64_percent (count_gt t []) 0) with S754_nan.
    rewrite b64_sub_nan_l. split; reflexivity.
Qed.

(** C3, counterexample.  On the example score set the threshold 0.2 separates
    the classes: there the rates are equal, the cell marks the estimate as
    exact, and the estimate is 0.  The cell, at its threshold -0.115, has the
    rates 50 and 0, which differ by 50 in float64, and reports the estimate
    25 as approximate: its result is not the one at the best threshold of a
    range that holds 0.2. *)
Lemma eer_cell_counterexample :
  eer_cell_set example_set thr_cell =
    Returns {| rep_fnr := Fin (100 # 2); rep_fpr := Fin (0 # 2);
               rep_diff := b64_of_Z 50; rep_exact := false;
               rep_eer := Fin (200 # 8) |} /\
  eer_cell_set example_set (2 # 10) =
    Returns {| rep_fnr := Fin (0 # 2); rep_fpr := Fin (0 # 2);
               rep_diff := b64_of_Z 0; rep_exact := true;
               rep_eer := Fin (0 # 8) |} /\
  ~ (200 # 8) == (0 # 8).
Proof.
  split; [vm_compute; reflexivity|]. split; [vm_compute; reflexivity|].
  intros H. vm_compute in H. discriminate H.
Qed.

(** ** ROC-AUC of the hard decisions *)

Lemma mask_select_map {A B : Type} (f : A -> B) (a : list A) (m : list bool) :
  mask_select (map f a) m = map f (mask_select a m).
Proof.
  revert m. induction a as [|x a IH]; intros [|[] m]; cbn; rewrite ?IH; reflexivity.
Qed.

Lemma Qsum_all_one (p : Q) (neg : list Q) :
  Forall (fun n => n < p) neg ->
  Qsum (map (pair_credit p) neg) == inject_Z (len neg).
Proof.
  induction 1 as [|n neg Hn _ IH]; [reflexivity|].
  cbn [map Qsum fold_right]. fold (Qsum (map (pair_credit p) neg)). rewrite IH.
  unfold pair_credit. apply Qlt_bool_iff in Hn. rewrite Hn.
  unfold len. cbn [length]. rewrite Nat2Z.inj_succ, <- Z.add_1_l, inject_Z_plus.
  reflexivity.
Qed.

Lemma rank_sum_all_wins (pos neg : list Q) :
  Forall (fun p => Forall (fun n => n < p) neg) pos ->
  rank_sum pos neg == inject_Z (len pos) * inject_Z (len neg).
Proof.
  unfold rank_sum. induction 1 as [|p pos Hp _ IH].
  - unfold len. cbn [map Qsum fold_right length Z.of_nat].
    change (inject_Z 0) with 0. ring.
  - cbn [map Qsum fold_right].
    fold (Qsum (map (fun p0 => Qsum (map (pair_credit p0) neg)) pos)).
    rewrite IH, (Qsum_all_one p neg Hp).
    unfold len. cbn [length]. rewrite Nat2Z.inj_succ, <- Z.add_1_l, inject_Z_plus.
    ring.
Qed.

Lemma hard_decision_positive (l : list Q) :
  Forall (fun x => 0 < x) l -> Forall (fun d => d = 1) (map hard_decision l).
Proof.
  induction 1 as [|x l Hx _ IH]; constructor; [|exact IH].
  unfold hard_decision. apply Qlt_bool_iff in Hx. now rewrite Hx.
Qed.

Lemma hard_decision_nonpositive (l : list Q) :
  Forall (fun x => x <= 0) l -> Forall (fun d => d = 0) (map hard_decision l).
Proof.
  induction 1 as [|x l Hx _ IH]; constructor; [|exact IH].
  unfold hard_decision. apply Qle_not_lt, Qlt_bool_false in Hx. now rewrite Hx.
Qed.

(** The two arrays that [roc_auc_score] compares on a score set. *)
Lemma roc_auc_set_unfold (s : ScoreSet) :
  roc_auc_set s =
  match map hard_decision (class_scores human s), map hard_decision (class_scores spoof s) with
  | [], _ | _, [] => Raises ValueError
  | pos, neg => Returns (rank_sum pos neg / (inject_Z (len pos) * inject_Z (len neg)))
  end.
Proof.
  unfold roc_auc_set, roc_auc_score.
  replace (length (z_column (labels_of s)) =? length (map hard_decision (scores_of s)))%nat
    with true.
  - cbn [negb]. rewrite !mask_select_map, mask_select_one, mask_select_zero.
    destruct (map hard_decision (class_scores human s)),
             (map hard_decision (class_scores spoof s)); reflexivity.
  - symmetry. apply Nat.eqb_eq.
    unfold z_column, labels_of, scores_of. now rewrite !length_map.
Qed.

(** The value that the cell prints after the loop is the one of the hard
    decisions of the scores. *)
Lemma roc_auc_cell_scoring (gmm_nat gmm_synt : DensityModel)
    (s : ScoreSet) (mfccs : list FeatureMatrix) :
  Forall2 (fun F v => score gmm_nat gmm_synt F = Returns v) mfccs (scores_of s) ->
  exists st,
    scoring_cell gmm_nat gmm_synt mfccs = Returns st /\
    llr_gmm_score st = scores_of s /\
    roc_auc_cell (labels_of s) st = roc_auc_set s.
Proof.
  intros Hvals. eexists. split; [apply (scoring_cell_returns _ _ _ _ _ Hvals)|].
  split; reflexivity.
Qed.

(** C5, as amended.  [roc_auc] is the rank-based ROC-AUC of the hard decisions
    [z_gmm] (1 when the score is above 0, else 0) against the labels, not of
    the scores themselves: for every score set with both classes non-empty in
    which every human-labelled score is above 0 and every spoof-labelled score
    is at most 0, it returns 1. *)
Theorem roc_auc_separated_at_zero (s : ScoreSet) :
  class_scores human s <> [] ->
  class_scores spoof s <> [] ->
  Forall (fun x => 0 < x) (class_scores human s) ->
  Forall (fun x => x <= 0) (class_scores spoof s) ->
  exists a, roc_auc_set s = Returns a /\ a == 1.
Proof.
  intros Hh Hs Hpos Hneg. rewrite roc_auc_set_unfold.
  apply hard_decision_positive in Hpos. apply hard_decision_nonpositive in Hneg.
  destruct (map hard_decision (class_scores human s)) as [|p pos] eqn:Ep.
  { destruct (class_scores human s); [congruence | discriminate Ep]. }
  destruct (map hard_decision (class_scores spoof s)) as [|n neg] eqn:En.
  { destruct (class_scores spoof s); [congruence | discriminate En]. }
  eexists. split; [reflexivity|].
  rewrite rank_sum_all_wins.
  - apply Qmult_inv_r. unfold len. cbn [length].
    rewrite <- inject_Z_mult. change 0 with (inject_Z 0).
    rewrite inject_Z_injective. lia.
  - eapply Forall_impl; [exact Hpos|]. intros p' ->.
    eapply Forall_impl; [exact Hneg|]. intros n' ->. reflexivity.
Qed.

Lemma roc_auc_separated_at_zero_witness :
  exists a, roc_auc_set example_set_zero = Returns a /\ a == 1.
Proof.
  apply (roc_auc_separated_at_zero example_set_zero).
  - vm_compute; discriminate.
  - vm_compute; discriminate.
  - repeat constructor.
  - repeat constructor; vm_compute; discriminate.
Defined.

(** C5, counterexample.  A human-labelled utterance of score 2 and a
    spoof-labelled one of score 1: every human score exceeds every spoof
    score, both decisions are 1, and the value is 1/2.  The scoring cell gets
    there from two models of 2 and 1 per frame on utterances of two frames and
    of one. *)
Lemma roc_auc_counterexample :
  Forall (fun h => Forall (fun sp => sp < h) (class_scores spoof [(human, 2); (spoof, 1)]))
         (class_scores human [(human, 2); (spoof, 1)]) /\
  roc_auc_set [(human, 2); (spoof, 1)] = Returns (1 # 2) /\
  scoring_cell (frame_count_model 2) (frame_count_model 1) [[[0]; [0]]; [[0]]] =
    Returns {| llr_gmm_score := [2 * 2 - 1 * 2; 2 * 1 - 1 * 1]; z_gmm := [1; 1];
               k := 2; thr := 5 # 10 |} /\
  roc_auc_cell [human; spoof]
    {| llr_gmm_score := [2 * 2 - 1 * 2; 2 * 1 - 1 * 1]; z_gmm := [1; 1];
       k := 2; thr := 5 # 10 |} = Returns (1 # 2) /\
  ~ (1 # 2) == 1.
Proof.
  split; [repeat constructor|].
  split; [reflexivity|]. split; [reflexivity|]. split; [reflexivity|].
  intros H. vm_compute in H. discriminate H.
Qed.

(** * Further properties of the notebook *)

(** ** Hard-decision rates of the scoring cell *)

Lemma qn_S (n : nat) : qn (S n) == 1 + qn n.
Proof. unfold qn. now rewrite Nat2Z.inj_succ, <- Z.add_1_l, inject_Z_plus. Qed.

Lemma qn_plus (a b : nat) : qn (a + b) == qn a + qn b.
Proof. unfold qn. now rewrite Nat2Z.inj_add, inject_Z_plus. Qed.

Lemma qn_nonzero (n : nat) : n <> 0%nat -> ~ qn n == 0.
Proof.
  intros Hn H. unfold qn, Qeq in H. cbn in H. lia.
Qed.

Lemma count_gt_le_length (t : Q) (l : list Q) :
  (count_gt t l + count_le t l)%nat = length l.
Proof.
  unfold count_gt, count_le. induction l as [|x l IH]; [reflexivity|].
  rewrite !filter_cons.
  destruct (decide (t < x)) as [H1 | H1], (decide (x <= t)) as [H2 | H2];
    cbn [length]; try lia.
  - destruct (Qlt_not_le _ _ H1 H2).
  - destruct H2. now apply Qnot_lt_le.
Qed.

Lemma np_sum_lt_decisions (l : list Q) :
  np_sum (np_lt (map hard_decision l) (5 # 10)) = Z.of_nat (count_le 0 l).
Proof.
  unfold count_le. induction l as [|x l IH]; [reflexivity|].
  rewrite filter_cons. cbn [np_lt map np_sum fold_right].
  fold (np_lt (map hard_decision l) (5 # 10)).
  fold (np_sum (np_lt (map hard_decision l) (5 # 10))). rewrite IH.
  unfold hard_decision. destruct (Qlt_bool 0 x) eqn:E.
  - apply Qlt_bool_iff in E. rewrite decide_False by now apply Qlt_not_le.
    reflexivity.
  - apply Qlt_bool_false in E. rewrite decide_True by now apply Qnot_lt_le.
    cbn [length]. change (Qlt_bool 0 (5 # 10)) with true. cbn [Z.b2z]. lia.
Qed.

Lemma np_sum_ge_decisions (l : list Q) :
  np_sum (np_ge (map hard_decision l) (5 # 10)) = Z.of_nat (count_gt 0 l).
Proof.
  unfold count_gt. induction l as [|x l IH]; [reflexivity|].
  rewrite filter_cons. cbn [np_ge map np_sum fold_right].
  fold (np_ge (map hard_decision l) (5 # 10)).
  fold (np_sum (np_ge (map hard_decision l) (5 # 10))). rewrite IH.
  unfold hard_decision. destruct (Qlt_bool 0 x) eqn:E.
  - apply Qlt_bool_iff in E. rewrite decide_True by assumption.
    cbn [length]. change (Qle_bool (5 # 10) 1) with true. cbn [Z.b2z]. lia.
  - apply Qlt_bool_false in E. rewrite decide_False by assumption.
    reflexivity.
Qed.

(** The block in closed form: its [humans] are the decisions of the
    spoof-labelled utterances, its [spoofed] those of the human-labelled
    ones. *)
Lemma performance_set_unfold (s : ScoreSet) :
  performance_set s =
  (auc ← roc_auc_set s;
   let fnr := fmulc 100 (fsub (Fin 1)
                (true_divide (Z.of_nat (count_le 0 (class_scores spoof s)))
                             (len (class_scores spoof s)))) in
   let fpr := fmulc 100 (fsub (Fin 1)
                (true_divide (Z.of_nat (count_gt 0 (class_scores human s)))
                             (len (class_scores human s)))) in
   Returns {| perf_auc := auc; perf_fnr := fnr; perf_fpr := fpr;
              perf_bound := fdivc (fadd fnr fpr) 2 |}).
Proof.
  unfold performance_set, performance_evaluation, mask_index, roc_auc_set.
  replace (length (map hard_decision (scores_of s)))
    with (length (scores_of s)) by now rewrite length_map.
  rewrite <- !length_mask, Nat.eqb_refl. run_bind.
  rewrite !mask_select_map, mask_select_one, mask_select_zero.
  rewrite np_sum_lt_decisions, np_sum_ge_decisions.
  unfold len. rewrite !length_map. reflexivity.
Qed.

Lemma complement_percent (hits miss : nat) (l : list Q) :
  l <> [] ->
  (hits + miss)%nat = length l ->
  exists q,
    fmulc 100 (fsub (Fin 1) (true_divide (Z.of_nat miss) (len l))) = Fin q /\
    q == percent hits (length l).
Proof.
  intros Hl Hsum. pose proof (len_pos l Hl) as Hpos.
  rewrite true_divide_fin by lia. eexists. split; [reflexivity|].
  unfold percent, len. fold (qn miss) (qn hits) (qn (length l)).
  rewrite <- Hsum, qn_plus. field.
  rewrite <- qn_plus, Hsum. apply qn_nonzero.
  destruct l; [congruence | discriminate].
Qed.

Lemma count_gt_cons (t x : Q) (l : list Q) :
  count_gt t (x :: l) = if Qlt_bool t x then S (count_gt t l) else count_gt t l.
Proof.
  unfold count_gt. rewrite filter_cons.
  destruct (decide (t < x)) as [H | H].
  - apply Qlt_bool_iff in H. now rewrite H.
  - apply Qlt_bool_false in H. now rewrite H.
Qed.

Lemma count_le_cons (t x : Q) (l : list Q) :
  count_le t (x :: l) = if Qlt_bool t x then count_le t l else S (count_le t l).
Proof.
  unfold count_le. rewrite filter_cons.
  destruct (Qlt_bool t x) eqn:E.
  - apply Qlt_bool_iff in E. now rewrite decide_False by now apply Qlt_not_le.
  - apply Qlt_bool_false in E. now rewrite decide_True by now apply Qnot_lt_le.
Qed.

(** The credit that one decision collects against the decisions of the other
    class: a decision 1 beats every 0 and ties with every 1, a decision 0
    only ties with the 0s. *)
Lemma Qsum_decisions (h : Q) (ss : list Q) :
  Qsum (map (pair_credit (hard_decision h)) (map hard_decision ss)) ==
  if Qlt_bool 0 h
  then qn (count_le 0 ss) + qn (count_gt 0 ss) / 2
  else qn (count_le 0 ss) / 2.
Proof.
  induction ss as [|x ss IH].
  - cbn. destruct (Qlt_bool 0 h); reflexivity.
  - cbn [map Qsum fold_right].
    fold (Qsum (map (pair_credit (hard_decision h)) (map hard_decision ss))).
    rewrite IH, count_gt_cons, count_le_cons. unfold hard_decision.
    destruct (Qlt_bool 0 h), (Qlt_bool 0 x); rewrite ?qn_S.
    + change (pair_credit 1 1) with (1 # 2). field.
    + change (pair_credit 1 0) with 1. field.
    + change (pair_credit 0 1) with 0. field.
    + change (pair_credit 0 0) with (1 # 2). field.
Qed.

Lemma rank_sum_decisions (hs ss : list Q) :
  rank_sum (map hard_decision hs) (map hard_decision ss) ==
  qn (count_gt 0 hs) * (qn (count_le 0 ss) + qn (count_gt 0 ss) / 2)
  + qn (count_le 0 hs) * (qn (count_le 0 ss) / 2).
Proof.
  unfold rank_sum. induction hs as [|h hs IH].
  - cbn. unfold qn. cbn. ring.
  - cbn [map Qsum fold_right].
    fold (Qsum (map (fun p => Qsum (map (pair_credit p) (map hard_decision ss)))
                    (map hard_decision hs))).
    rewrite IH, Qsum_decisions, count_gt_cons, count_le_cons.
    destruct (Qlt_bool 0 h); rewrite qn_S; ring.
Qed.

Lemma roc_auc_set_nonempty (s : ScoreSet) :
  class_scores human s <> [] ->
  class_scores spoof s <> [] ->
  roc_auc_set s =
  Returns (rank_sum (map hard_decision (class_scores human s))
                    (map hard_decision (class_scores spoof s))
           / (qn (length (class_scores human s)) * qn (length (class_scores spoof s)))).
Proof.
  intros Hh Hs. rewrite roc_auc_set_unfold.
  destruct (class_scores human s) as [|h hs]; [congruence|].
  destruct (class_scores spoof s) as [|x ss]; [congruence|].
  cbn [map]. unfold len, qn. cbn [length]. rewrite !length_map. reflexivity.
Qed.

(** X1.  For every score set with both classes non-empty, the rates that the
    scoring cell computes from the hard decisions at [thr = .5] are the rates
    of the EER cell at the score threshold 0, and the bound it prints is
    their mean. *)
Theorem performance_is_estimate_at_zero (s : ScoreSet) :
  class_scores human s <> [] ->
  class_scores spoof s <> [] ->
  exists p fnr fpr bound fnr0 fpr0,
    performance_set s = Returns p /\
    perf_fnr p = Fin fnr /\
    perf_fpr p = Fin fpr /\
    perf_bound p = Fin bound /\
    estimate_set s 0 = Returns (Fin fnr0, Fin fpr0) /\
    fnr == fnr0 /\
    fpr == fpr0 /\
    bound == (fnr + fpr) / 2.
Proof.
  intros Hh Hs.
  destruct (complement_percent (count_gt 0 (class_scores spoof s))
              (count_le 0 (class_scores spoof s)) _ Hs (count_gt_le_length _ _))
    as (fnr & Efnr & Hfnr).
  destruct (complement_percent (count_le 0 (class_scores human s))
              (count_gt 0 (class_scores human s)) (class_scores human s) Hh)
    as (fpr & Efpr & Hfpr).
  { rewrite Nat.add_comm. apply count_gt_le_length. }
  destruct (true_divide_percent (count_gt 0 (class_scores spoof s)) _ Hs)
    as (fnr0 & Efnr0 & Hfnr0).
  destruct (true_divide_percent (count_le 0 (class_scores human s)) _ Hh)
    as (fpr0 & Efpr0 & Hfpr0).
  rewrite performance_set_unfold, (roc_auc_set_nonempty s Hh Hs). run_bind.
  cbv zeta. rewrite Efnr, Efpr.
  eexists _, fnr, fpr, _, fnr0, fpr0.
  split; [reflexivity|]. cbn [perf_fnr perf_fpr perf_bound fadd fdivc].
  rewrite estimate_set_unfold, Efnr0, Efpr0.
  repeat split; try reflexivity.
  - now rewrite Hfnr, Hfnr0.
  - now rewrite Hfpr, Hfpr0.
Qed.

Lemma performance_is_estimate_at_zero_witness :
  exists p fnr fpr bound fnr0 fpr0,
    performance_set example_set = Returns p /\
    perf_fnr p = Fin fnr /\
    perf_fpr p = Fin fpr /\
    perf_bound p = Fin bound /\
    estimate_set example_set 0 = Returns (Fin fnr0, Fin fpr0) /\
    fnr == fnr0 /\
    fpr == fpr0 /\
    bound == (fnr + fpr) / 2.
Proof.
  apply (performance_is_estimate_at_zero example_set); vm_compute; discriminate.
Defined.

(** X2.  For every score set with both classes non-empty, the ROC AUC that
    the scoring cell prints is one minus a hundredth of the bound it prints:
    computed from hard decisions, the area holds nothing beyond the two
    rates. *)
Theorem roc_auc_is_one_minus_bound (s : ScoreSet) :
  class_scores human s <> [] ->
  class_scores spoof s <> [] ->
  exists p bound,
    performance_set s = Returns p /\
    roc_auc_set s = Returns (perf_auc p) /\
    perf_bound p = Fin bound /\
    perf_auc p == 1 - bound / 100.
Proof.
  intros Hh Hs.
  pose proof (len_pos _ Hh) as Hph. pose proof (len_pos _ Hs) as Hps.
  rewrite performance_set_unfold, (roc_auc_set_nonempty s Hh Hs). run_bind.
  cbv zeta. rewrite !true_divide_fin by lia.
  eexists _, _. split; [reflexivity|].
  cbn [perf_auc perf_bound fmulc fsub fneg fadd fdivc].
  split; [reflexivity|]. split; [reflexivity|].
  rewrite rank_sum_decisions. unfold len.
  fold (qn (count_le 0 (class_scores spoof s))) (qn (count_gt 0 (class_scores human s)))
       (qn (length (class_scores spoof s))) (qn (length (class_scores human s))).
  rewrite <- (count_gt_le_length 0 (class_scores human s)).
  rewrite <- (count_gt_le_length 0 (class_scores spoof s)).
  rewrite !qn_plus. field.
  rewrite <- !qn_plus, !count_gt_le_length.
  split; apply qn_nonzero.
  - destruct (class_scores human s); [congruence | discriminate].
  - destruct (class_scores spoof s); [congruence | discriminate].
Qed.

Lemma roc_auc_is_one_minus_bound_witness :
  exists p bound,
    performance_set example_set = Returns p /\
    roc_auc_set example_set = Returns (perf_auc p) /\
    perf_bound p = Fin bound /\
    perf_auc p == 1 - bound / 100.
Proof.
  apply (roc_auc_is_one_minus_bound example_set); vm_compute; discriminate.
Defined.

(** ** The loading cell *)

Lemma compare_refl (a : string) : String.compare a a = Eq.
Proof. now apply String_as_OT.cmp_eq. Qed.

Lemma compare_lt_trans (a b c : string) :
  String.compare a b = Lt -> String.compare b c = Lt -> String.compare a c = Lt.
Proof.
  intros Hab Hbc. apply String_as_OT.cmp_lt.
  apply String_as_OT.cmp_lt in Hab, Hbc.
  exact (String_as_OT.lt_trans _ _ _ Hab Hbc).
Qed.

Lemma leb_iff (a b : string) :
  String.leb a b = true <-> String.compare a b = Lt \/ a = b.
Proof.
  unfold String.leb. destruct (String.compare a b) eqn:E; split; try tauto.
  - intros _. right. now apply String.compare_eq_iff.
  - discriminate.
  - intros [H | ->]; [discriminate|]. rewrite compare_refl in E. discriminate.
Qed.

Lemma leb_trans (a b c : string) :
  String.leb a b = true -> String.leb b c = true -> String.leb a c = true.
Proof.
  rewrite !leb_iff. intros [Hab | ->] [Hbc | ->]; auto.
  left. exact (compare_lt_trans _ _ _ Hab Hbc).
Qed.

Lemma row_le_iff (r1 r2 : row) :
  row_le r1 r2 <->
  String.compare (folder r1) (folder r2) = Lt \/
  (folder r1 = folder r2 /\ String.leb (file r1) (file r2) = true).
Proof.
  unfold row_le, row_leb.
  destruct (String.compare (folder r1) (folder r2)) eqn:E; split.
  - intros H. right. split; [now apply String.compare_eq_iff | exact H].
  - intros [H | [_ H]]; [discriminate | exact H].
  - now left.
  - reflexivity.
  - discriminate.
  - intros [H | [Heq _]]; [discriminate|].
    rewrite Heq, compare_refl in E. discriminate.
Qed.

#[local] Instance row_le_trans : Transitive row_le.
Proof.
  intros r1 r2 r3. rewrite !row_le_iff.
  intros [H12 | [E12 L12]] [H23 | [E23 L23]].
  - left. exact (compare_lt_trans _ _ _ H12 H23).
  - left. now rewrite <- E23.
  - left. now rewrite E12.
  - right. split; [congruence | exact (leb_trans _ _ _ L12 L23)].
Qed.

Lemma row_leb_total (r1 r2 : row) : row_leb r1 r2 = false -> row_le r2 r1.
Proof.
  unfold row_le, row_leb. rewrite (String.compare_antisym (folder r1) (folder r2)).
  destruct (String.compare (folder r2) (folder r1)) eqn:E; cbn; try congruence.
  intros H. destruct (String.leb_total (file r1) (file r2)) as [H' | H']; congruence.
Qed.

Lemma row_le_folder (r1 r2 : row) : row_le r1 r2 -> folder_le r1 r2.
Proof.
  rewrite row_le_iff. intros H. unfold folder_le. apply leb_iff. tauto.
Qed.

Lemma insert_row_perm (r : row) (l : list row) : insert_row r l ≡ₚ r :: l.
Proof.
  induction l as [|x l IH]; [reflexivity|]. cbn [insert_row].
  destruct (row_leb r x); [reflexivity|].
  rewrite IH. apply Permutation_swap.
Qed.

Lemma insert_row_sorted (r : row) (l : list row) :
  Sorted row_le l -> Sorted row_le (insert_row r l).
Proof.
  induction 1 as [|x l Hl IH Hx]; [repeat constructor|].
  cbn [insert_row]. destruct (row_leb r x) eqn:E.
  - repeat constructor; assumption.
  - constructor; [exact IH|].
    destruct Hx as [|y l Hxy]; cbn [insert_row].
    + constructor. now apply row_leb_total.
    + destruct (row_leb r y); constructor; [now apply row_leb_total | exact Hxy].
Qed.

Lemma sort_values_perm (table : list row) : sort_values table ≡ₚ table.
Proof.
  induction table as [|r table IH]; [reflexivity|].
  unfold sort_values in *. cbn [foldr]. now rewrite insert_row_perm, IH.
Qed.

Lemma sort_values_sorted (table : list row) : StronglySorted row_le (sort_values table).
Proof.
  apply Sorted_StronglySorted; [apply row_le_trans|].
  induction table as [|r table IH]; [constructor|].
  unfold sort_values in *. cbn [foldr]. now apply insert_row_sorted.
Qed.

Lemma StronglySorted_weaken {A : Type} (R1 R2 : relation A) (l : list A) :
  (forall x y, R1 x y -> R2 x y) -> StronglySorted R1 l -> StronglySorted R2 l.
Proof.
  intros HR. induction 1 as [|x l _ IH Hx]; constructor; [exact IH|].
  eapply Forall_impl; [exact Hx|]. intros y. apply HR.
Qed.

Lemma mask_select_filter {A : Type} (P : A -> Prop) `{!forall x, Decision (P x)} (l : list A) :
  mask_select l (map (fun x => bool_decide (P x)) l) = filter P l.
Proof.
  induction l as [|x l IH]; [reflexivity|].
  cbn [map mask_select]. rewrite filter_cons, IH.
  destruct (decide (P x)) as [Hx | Hx].
  - now rewrite bool_decide_true.
  - now rewrite bool_decide_false.
Qed.

(** X3.  A table of the loading cell holds the rows of the file whose folder
    is in the subfolder list, all rows when the list is empty, each as often
    as the file does, and it is sorted by folder and then by file. *)
Theorem load_table_rows (subfls : list string) (csv : list row) :
  load_table subfls csv ≡ₚ
    (if decide (subfls = []) then csv
     else filter (fun r => folder r ∈ subfls) csv) /\
  (forall r, r ∈ load_table subfls csv <->
             r ∈ csv /\ (subfls = [] \/ folder r ∈ subfls)) /\
  StronglySorted row_le (load_table subfls csv) /\
  StronglySorted folder_le (load_table subfls csv).
Proof.
  assert (Hsel : select_subfolders subfls csv =
                 if decide (subfls = []) then csv
                 else filter (fun r => folder r ∈ subfls) csv).
  { unfold select_subfolders. destruct subfls as [|x subfls]; [reflexivity|].
    cbn [length Nat.eqb]. rewrite decide_False by discriminate.
    apply mask_select_filter. }
  assert (Hperm : load_table subfls csv ≡ₚ
                  if decide (subfls = []) then csv
                  else filter (fun r => folder r ∈ subfls) csv).
  { unfold load_table. now rewrite sort_values_perm, Hsel. }
  split; [exact Hperm|]. split; [|split].
  - intros r. rewrite Hperm. destruct (decide (subfls = [])) as [-> | Hne].
    + intuition.
    + rewrite list_elem_of_filter. intuition.
  - apply sort_values_sorted.
  - eapply StronglySorted_weaken; [|apply sort_values_sorted].
    intros r1 r2. apply row_le_folder.
Qed.

(** ** The order in which the scoring loop takes the rows *)

Lemma unique_from_filter (a : string) (values : list string) :
  forall seen1 seen2 : list string,
    (forall x, x ∈ seen1 <-> x = a \/ x ∈ seen2) ->
    unique_from seen1 values = unique_from seen2 (filter (fun x => x <> a) values).
Proof.
  induction values as [|x values IH]; intros seen1 seen2 Hseen; [reflexivity|].
  cbn [unique_from]. rewrite filter_cons.
  destruct (decide (x <> a)) as [Hx | Hx].
  - cbn [unique_from].
    rewrite (bool_decide_ext (x ∈ seen1) (x ∈ seen2)) by (rewrite Hseen; tauto).
    destruct (bool_decide (x ∈ seen2)); [now apply IH|].
    f_equal. apply IH. intros y. rewrite !elem_of_cons, Hseen. tauto.
  - assert (x = a) as -> by (destruct (decide (x = a)); tauto).
    rewrite bool_decide_true by (apply Hseen; now left).
    now apply IH.
Qed.

(** The first value stays first, and the later ones are those of the rest
    that differ from it. *)
Lemma unique_cons (a : string) (values : list string) :
  unique (a :: values) = a :: unique (filter (fun x => x <> a) values).
Proof.
  unfold unique. cbn [unique_from].
  rewrite bool_decide_false by apply not_elem_of_nil.
  f_equal. apply unique_from_filter. intros x. rewrite elem_of_cons. tauto.
Qed.

Lemma unique_from_elem (seen values : list string) (x : string) :
  x ∈ unique_from seen values -> x ∈ values.
Proof.
  revert seen. induction values as [|y values IH]; intros seen; [easy|].
  cbn [unique_from]. destruct (bool_decide (y ∈ seen)).
  - intros H. right. now apply (IH seen).
  - rewrite !elem_of_cons. intros [-> | H]; [now left | right; now apply (IH (y :: seen))].
Qed.

Lemma filter_map_folder (a : string) (l : list row) :
  filter (fun x => x <> a) (map folder l) = map folder (filter (fun r => folder r <> a) l).
Proof.
  induction l as [|r l IH]; [reflexivity|].
  cbn [map]. rewrite !filter_cons.
  destruct (decide (folder r <> a)); cbn [map]; now rewrite IH.
Qed.

Lemma flat_map_ext_elem {A B : Type} (f g : A -> list B) (l : list A) :
  (forall x, x ∈ l -> f x = g x) -> flat_map f l = flat_map g l.
Proof.
  induction l as [|x l IH]; intros H; [reflexivity|].
  cbn [flat_map]. rewrite (H x) by now left.
  f_equal. apply IH. intros y Hy. apply H. now right.
Qed.

(** The loops take the rows of the first row's folder, in their order, and
    then go on with the other rows. *)
Lemma visited_cons (r : row) (l : list row) :
  visited (r :: l) =
  filter (fun x => folder x = folder r) (r :: l)
  ++ visited (filter (fun x => folder x <> folder r) l).
Proof.
  unfold visited. cbn [map]. rewrite unique_cons. cbn [flat_map]. f_equal.
  rewrite filter_map_folder. apply flat_map_ext_elem.
  intros sp Hsp. apply unique_from_elem in Hsp.
  apply list_elem_of_fmap in Hsp. destruct Hsp as (x & -> & Hx).
  apply list_elem_of_filter in Hx. destruct Hx as [Hne _].
  rewrite filter_cons, decide_False by congruence.
  rewrite list_filter_filter. apply list_filter_iff.
  intros y. split; [intros Hy; split; [exact Hy | congruence] | tauto].
Qed.

(** Whatever the order of the table, the loops take every row once. *)
Lemma visited_perm (l : list row) : visited l ≡ₚ l.
Proof.
  remember (length l) as n eqn:Hn. revert l Hn.
  induction n as [n IH] using lt_wf_ind. intros [|r l] Hn; [reflexivity|].
  rewrite visited_cons, filter_cons, decide_True by reflexivity.
  cbn [app]. constructor.
  rewrite (IH (length (filter (fun x => folder x <> folder r) l))); [| |reflexivity].
  - apply (filter_app_complement (fun x => folder x = folder r)).
  - subst n. cbn [length]. pose proof (length_filter (fun x => folder x <> folder r) l). lia.
Qed.

Lemma StronglySorted_filter {A : Type} (R : relation A) (P : A -> Prop)
    `{!forall x, Decision (P x)} (l : list A) :
  StronglySorted R l -> StronglySorted R (filter P l).
Proof.
  induction 1 as [|x l _ IH Hx]; [constructor|].
  rewrite filter_cons. destruct (decide (P x)); [|exact IH].
  constructor; [exact IH|].
  apply Forall_forall. intros y Hy. apply list_elem_of_filter in Hy.
  rewrite Forall_forall in Hx. now apply Hx.
Qed.

Lemma filter_all {A : Type} (P : A -> Prop) `{!forall x, Decision (P x)} (l : list A) :
  Forall P l -> filter P l = l.
Proof.
  induction 1 as [|x l Hx _ IH]; [reflexivity|].
  now rewrite filter_cons, decide_True, IH.
Qed.

Lemma filter_none {A : Type} (P : A -> Prop) `{!forall x, Decision (P x)} (l : list A) :
  Forall (fun x => ~ P x) l -> filter P l = [].
Proof.
  induction 1 as [|x l Hx _ IH]; [reflexivity|].
  now rewrite filter_cons, decide_False, IH.
Qed.

(** In a table sorted by folder, the rows of the least folder come first. *)
Lemma sorted_folder_split (a : string) (l : list row) :
  StronglySorted folder_le l ->
  Forall (fun x => String.leb a (folder x) = true) l ->
  filter (fun x => folder x = a) l ++ filter (fun x => folder x <> a) l = l.
Proof.
  induction 1 as [|x l Hl IH Hx]; intros Ha; [reflexivity|].
  apply Forall_cons in Ha. destruct Ha as [Hax Ha].
  rewrite !filter_cons. destruct (decide (folder x = a)) as [E | E].
  - rewrite decide_False by tauto. cbn [app]. f_equal. now apply IH.
  - rewrite decide_True by assumption.
    assert (Hnone : Forall (fun y => folder y <> a) l).
    { rewrite Forall_forall in Hx |- *. intros y Hy Hya. apply E.
      apply String.leb_antisym; [|exact Hax].
      rewrite <- Hya. now apply Hx. }
    rewrite (filter_none (fun y => folder y = a)) by exact Hnone.
    rewrite (filter_all (fun y => folder y <> a)) by exact Hnone.
    reflexivity.
Qed.

(** In a table sorted by folder the loops take the rows in table order. *)
Lemma visited_sorted (l : list row) : StronglySorted folder_le l -> visited l = l.
Proof.
  remember (length l) as n eqn:Hn. revert l Hn.
  induction n as [n IH] using lt_wf_ind. intros [|r l] Hn Hsorted; [reflexivity|].
  apply StronglySorted_inv in Hsorted. destruct Hsorted as [Hl Hr].
  rewrite visited_cons, filter_cons, decide_True by reflexivity.
  rewrite (IH (length (filter (fun x => folder x <> folder r) l))); try reflexivity.
  - cbn [app]. f_equal. now apply sorted_folder_split.
  - subst n. cbn [length]. pose proof (length_filter (fun x => folder x <> folder r) l). lia.
  - now apply StronglySorted_filter.
Qed.

Section ScoringTableProperties.
Variable features_of : string -> FeatureMatrix.
Variables gmm_nat gmm_synt : DensityModel.

Lemma scoring_loop_app (l1 l2 : list FeatureMatrix) (st : loop_state) :
  scoring_loop gmm_nat gmm_synt st (l1 ++ l2) =
  (st' ← scoring_loop gmm_nat gmm_synt st l1; scoring_loop gmm_nat gmm_synt st' l2).
Proof.
  revert st. induction l1 as [|F l1 IH]; intros st; [reflexivity|].
  cbn [app scoring_loop].
  destruct (loop_body gmm_nat gmm_synt st F) as [st'|e]; run_bind; [apply IH | reflexivity].
Qed.

Lemma f_list_features (ground_truth : list row) (speaker_id : string) :
  map (fun f => features_of (wav_name speaker_id f)) (f_list ground_truth speaker_id) =
  map (row_features features_of) (filter (fun r => folder r = speaker_id) ground_truth).
Proof.
  unfold f_list. rewrite map_map. apply map_ext_in.
  intros r Hr. apply list_elem_of_In, list_elem_of_filter in Hr.
  destruct Hr as [<- _]. reflexivity.
Qed.

Lemma speaker_loop_flat (ground_truth : list row) (speaker_list : list string) :
  forall st,
    speaker_loop features_of gmm_nat gmm_synt ground_truth st speaker_list =
    scoring_loop gmm_nat gmm_synt st
      (map (row_features features_of)
         (flat_map (fun sp => filter (fun r => folder r = sp) ground_truth) speaker_list)).
Proof.
  induction speaker_list as [|sp rest IH]; intros st; [reflexivity|].
  cbn [speaker_loop flat_map]. rewrite map_app, scoring_loop_app, f_list_features.
  destruct (scoring_loop gmm_nat gmm_synt st _) as [st'|e]; run_bind;
    [apply IH | reflexivity].
Qed.

(** The cell on a table is the loop over the features of the rows in the
    order in which they are taken. *)
Lemma scoring_cell_table_visited (ground_truth : list row) :
  scoring_cell_table features_of gmm_nat gmm_synt ground_truth =
  scoring_cell gmm_nat gmm_synt (map (row_features features_of) (visited ground_truth)).
Proof.
  unfold scoring_cell_table, scoring_cell. rewrite speaker_loop_flat.
  fold (visited ground_truth).
  now rewrite length_map, (Permutation_length (visited_perm ground_truth)).
Qed.

Lemma row_scores_exist (rows : list row) :
  Forall (fun r => returns (gmm_nat (row_features features_of r)) /\
                   returns (gmm_synt (row_features features_of r))) rows ->
  exists vals,
    Forall2 (fun r v => score gmm_nat gmm_synt (row_features features_of r) = Returns v)
            rows vals.
Proof.
  induction 1 as [|r rows [[a Ha] [b Hb]] _ [vals IH]].
  - exists []. constructor.
  - exists ((a - b) :: vals). constructor; [now apply score_returns | exact IH].
Qed.

Lemma scoring_cell_rows (rows : list row) (vals : list Q) :
  Forall2 (fun r v => score gmm_nat gmm_synt (row_features features_of r) = Returns v)
          rows vals ->
  scoring_cell gmm_nat gmm_synt (map (row_features features_of) rows) =
  Returns {| llr_gmm_score := vals; z_gmm := map hard_decision vals;
             k := length rows; thr := 5 # 10 |}.
Proof.
  intros Hvals. unfold scoring_cell.
  rewrite (scoring_cell_returns gmm_nat gmm_synt _ vals).
  - now rewrite length_map.
  - clear -Hvals. induction Hvals; constructor; assumption.
Qed.

End ScoringTableProperties.

Lemma scoring_cell_table_sorted (features_of : string -> FeatureMatrix)
    (gmm_nat gmm_synt : DensityModel) (ground_truth : list row) :
  StronglySorted folder_le ground_truth ->
  Forall (fun r => returns (gmm_nat (row_features features_of r)) /\
                   returns (gmm_synt (row_features features_of r))) ground_truth ->
  exists st,
    scoring_cell_table features_of gmm_nat gmm_synt ground_truth = Returns st /\
    Forall2 (fun r v => score gmm_nat gmm_synt (row_features features_of r) = Returns v)
            ground_truth (llr_gmm_score st) /\
    z_gmm st = map hard_decision (llr_gmm_score st) /\
    k st = length ground_truth.
Proof.
  intros Hsorted Hret.
  destruct (row_scores_exist features_of gmm_nat gmm_synt _ Hret) as [vals Hvals].
  rewrite scoring_cell_table_visited, (visited_sorted _ Hsorted).
  rewrite (scoring_cell_rows features_of gmm_nat gmm_synt _ vals Hvals).
  eexists. split; [reflexivity|]. cbn [llr_gmm_score z_gmm k]. auto.
Qed.

(** X4.  For a ground-truth table sorted by folder, as the loading cell leaves
    it, and models that return on every utterance, the scoring cell returns
    with slot [i] of [llr_gmm_score] holding the score of row [i] of the table
    and slot [i] of [z_gmm] its hard decision: the arrays line up with the
    rows, which the later column assignments and the EER cell rely on. *)
Theorem scoring_cell_table_row_order (features_of : string -> FeatureMatrix)
    (gmm_nat gmm_synt : DensityModel) (ground_truth : list row) :
  StronglySorted folder_le ground_truth ->
  Forall (fun r => returns (gmm_nat (row_features features_of r)) /\
                   returns (gmm_synt (row_features features_of r))) ground_truth ->
  exists st,
    scoring_cell_table features_of gmm_nat gmm_synt ground_truth = Returns st /\
    Forall2 (fun r v => score gmm_nat gmm_synt (row_features features_of r) = Returns v)
            ground_truth (llr_gmm_score st) /\
    z_gmm st = map hard_decision (llr_gmm_score st) /\
    k st = length ground_truth.
Proof. apply scoring_cell_table_sorted. Qed.

Lemma scoring_cell_table_row_order_witness :
  exists st,
    scoring_cell_table example_features (frame_count_model 2) (frame_count_model 1)
      example_table = Returns st /\
    Forall2 (fun r v => score (frame_count_model 2) (frame_count_model 1)
                          (row_features example_features r) = Returns v)
            example_table (llr_gmm_score st) /\
    z_gmm st = map hard_decision (llr_gmm_score st) /\
    k st = length example_table.
Proof.
  apply (scoring_cell_table_row_order example_features
           (frame_count_model 2) (frame_count_model 1) example_table).
  - repeat constructor.
  - repeat constructor; eexists; reflexivity.
Defined.

(** The order matters: on a table whose rows of one folder are apart, the
    loops take the rows in another order than the table has them, and slot 1
    holds the score of row 2. *)
Example scoring_cell_table_unsorted :
  visited example_table_unsorted = example_table /\
  scoring_cell_table example_features (frame_count_model 2) (frame_count_model 1)
    example_table_unsorted =
  Returns {| llr_gmm_score := [2 * 12 - 1 * 12; 2 * 13 - 1 * 13; 2 * 14 - 1 * 14];
             z_gmm := [1; 1; 1]; k := 3; thr := 5 # 10 |} /\
  score (frame_count_model 2) (frame_count_model 1)
    (row_features example_features (Row "D2" "ccc" "human" human)) =
  Returns (2 * 14 - 1 * 14).
Proof. repeat split. Qed.

(** X5.  Whatever the order of the table, when the models return on every
    utterance the scoring cell returns: the two loops take every row exactly
    once, so the counter ends at the number of rows, no write leaves the
    arrays, and [llr_gmm_score] holds the scores of the rows in some order. *)
Theorem scoring_cell_table_every_row_once (features_of : string -> FeatureMatrix)
    (gmm_nat gmm_synt : DensityModel) (ground_truth : list row) :
  Forall (fun r => returns (gmm_nat (row_features features_of r)) /\
                   returns (gmm_synt (row_features features_of r))) ground_truth ->
  exists st rows,
    scoring_cell_table features_of gmm_nat gmm_synt ground_truth = Returns st /\
    rows ≡ₚ ground_truth /\
    Forall2 (fun r v => score gmm_nat gmm_synt (row_features features_of r) = Returns v)
            rows (llr_gmm_score st) /\
    z_gmm st = map hard_decision (llr_gmm_score st) /\
    k st = length ground_truth /\
    length (llr_gmm_score st) = length ground_truth.
Proof.
  intros Hret. pose proof (visited_perm ground_truth) as Hperm.
  rewrite <- Hperm in Hret.
  destruct (row_scores_exist features_of gmm_nat gmm_synt _ Hret) as [vals Hvals].
  rewrite scoring_cell_table_visited.
  rewrite (scoring_cell_rows features_of gmm_nat gmm_synt _ vals Hvals).
  eexists _, (visited ground_truth). split; [reflexivity|].
  cbn [llr_gmm_score z_gmm k].
  repeat split; try assumption.
  - now rewrite Hperm.
  - now rewrite <- (Forall2_length _ _ _ Hvals), Hperm.
Qed.

Lemma scoring_cell_table_every_row_once_witness :
  exists st rows,
    scoring_cell_table example_features (frame_count_model 2) (frame_count_model 1)
      example_table_unsorted = Returns st /\
    rows ≡ₚ example_table_unsorted /\
    Forall2 (fun r v => score (frame_count_model 2) (frame_count_model 1)
                          (row_features example_features r) = Returns v)
            rows (llr_gmm_score st) /\
    z_gmm st = map hard_decision (llr_gmm_score st) /\
    k st = length example_table_unsorted /\
    length (llr_gmm_score st) = length example_table_unsorted.
Proof.
  apply (scoring_cell_table_every_row_once example_features
           (frame_count_model 2) (frame_count_model 1) example_table_unsorted).
  repeat constructor; eexists; reflexivity.
Defined.

(** ** Edge behaviour of the scoring and EER cells *)

(** X6.  The scoring loop stops at the first utterance on which a model call
    fails, with that failure: when the models return on the utterances before
    it, the cell raises what [gmm_nat(mfcc)-gmm_synt(mfcc)] raises there,
    whatever comes after. *)
Theorem scoring_cell_first_failure (gmm_nat gmm_synt : DensityModel)
    (before after : list FeatureMatrix) (F : FeatureMatrix) (e : exn) :
  Forall (fun G => returns (gmm_nat G) /\ returns (gmm_synt G)) before ->
  score gmm_nat gmm_synt F = Raises e ->
  scoring_cell gmm_nat gmm_synt (before ++ F :: after) = Raises e.
Proof.
  intros Hret HF.
  destruct (scores_exist gmm_nat gmm_synt before Hret) as [vals Hvals].
  unfold scoring_cell. rewrite scoring_loop_app.
  rewrite (scoring_loop_returns gmm_nat gmm_synt before vals) by
    (try assumption; cbn; unfold np_zeros;
     rewrite length_replicate, length_app; cbn; lia).
  run_bind. cbn [scoring_loop]. unfold loop_body. rewrite HF. reflexivity.
Qed.

Lemma scoring_cell_first_failure_witness :
  scoring_cell (checked_model 1 2) (frame_count_model 1) ([[[1]]] ++ [] :: [[[1]; [2]]])
  = Raises LibraryError.
Proof.
  apply (scoring_cell_first_failure (checked_model 1 2) (frame_count_model 1)
           [[[1]]] [[[1]; [2]]] [] LibraryError).
  - repeat constructor; eexists; reflexivity.
  - reflexivity.
Defined.

Lemma percent_range (hits total : nat) :
  (hits <= total)%nat -> total <> 0%nat ->
  0 <= percent hits total /\ percent hits total <= 100.
Proof.
  intros Hle Hne. unfold percent. fold (qn hits) (qn total).
  assert (Hpos : 0 < qn total).
  { unfold qn. change 0 with (inject_Z 0). rewrite <- Zlt_Qlt. lia. }
  assert (Hh : 0 <= qn hits).
  { unfold qn. change 0 with (inject_Z 0). rewrite <- Zle_Qle. lia. }
  assert (Hht : qn hits <= qn total).
  { unfold qn. rewrite <- Zle_Qle. lia. }
  split.
  - apply Qle_shift_div_l; [exact Hpos|]. rewrite Qmult_0_l.
    apply Qmult_le_0_compat; [discriminate | exact Hh].
  - apply Qle_shift_div_r; [exact Hpos|].
    apply Qmult_le_l; [reflexivity | exact Hht].
Qed.

(** X8.  For every score set with both classes non-empty and every threshold,
    the two rates of the EER cell and the estimate it prints are percentages:
    they lie between 0 and 100. *)
Theorem eer_cell_range (s : ScoreSet) (t : Q) :
  class_scores human s <> [] ->
  class_scores spoof s <> [] ->
  exists r fnr fpr eer,
    eer_cell_set s t = Returns r /\
    rep_fnr r = Fin fnr /\ rep_fpr r = Fin fpr /\ rep_eer r = Fin eer /\
    (0 <= fnr /\ fnr <= 100) /\
    (0 <= fpr /\ fpr <= 100) /\
    (0 <= eer /\ eer <= 100).
Proof.
  intros Hh Hs.
  destruct (true_divide_percent (count_gt t (class_scores spoof s)) _ Hs)
    as (fnr & Efnr & Hfnr).
  destruct (true_divide_percent (count_le t (class_scores human s)) _ Hh)
    as (fpr & Efpr & Hfpr).
  destruct (percent_range (count_gt t (class_scores spoof s)) (length (class_scores spoof s)))
    as [Hf0 Hf100].
  { apply length_filter. }
  { destruct (class_scores spoof s); [congruence | discriminate]. }
  destruct (percent_range (count_le t (class_scores human s)) (length (class_scores human s)))
    as [Hp0 Hp100].
  { apply length_filter. }
  { destruct (class_scores human s); [congruence | discriminate]. }
  rewrite <- Hfnr in Hf0, Hf100. rewrite <- Hfpr in Hp0, Hp100.
  rewrite eer_cell_set_unfold, Efnr, Efpr. cbv zeta.
  eexists _, fnr, fpr, _. split; [reflexivity|].
  cbn [rep_fnr rep_fpr rep_eer fadd fdivc].
  repeat split; try assumption.
  - apply Qle_shift_div_l; [reflexivity|]. lra.
  - apply Qle_shift_div_r; [reflexivity|]. lra.
Qed.

Lemma eer_cell_range_witness :
  exists r fnr fpr eer,
    eer_cell_set example_set thr_cell = Returns r /\
    rep_fnr r = Fin fnr /\ rep_fpr r = Fin fpr /\ rep_eer r = Fin eer /\
    (0 <= fnr /\ fnr <= 100) /\
    (0 <= fpr /\ fpr <= 100) /\
    (0 <= eer /\ eer <= 100).
Proof.
  apply (eer_cell_range example_set thr_cell); vm_compute; discriminate.
Defined.

(** X9.  With an empty class the EER cell still runs to its end: it prints
    nan as its estimate and marks it as approximate. *)
Theorem eer_cell_of_empty_class (s : ScoreSet) (t : Q) :
  class_scores human s = [] \/ class_scores spoof s = [] ->
  exists r, eer_cell_set s t = Returns r /\ rep_eer r = NaN /\ rep_exact r = false.
Proof. apply eer_cell_empty_class. Qed.

Lemma eer_cell_of_empty_class_witness :
  exists r, eer_cell_set [(human, 6 # 10)] 0 = Returns r /\
            rep_eer r = NaN /\ rep_exact r = false.
Proof.
  apply (eer_cell_of_empty_class [(human, 6 # 10)] 0). right. reflexivity.
Defined.

(** ** Feature extraction for the training stage *)

Lemma length_written (i : nat) (vals old : list Q) :
  (i + length vals <= length old)%nat -> length (written i vals old) = length old.
Proof.
  intros H. unfold written.
  rewrite !length_app, length_take, length_drop. lia.
Qed.

Lemma written_nil (i : nat) (old : list Q) : written i [] old = old.
Proof. unfold written. cbn [app length]. now rewrite Nat.add_0_r, take_drop. Qed.

Lemma written_app (vals1 vals2 : list Q) :
  forall (i : nat) (old : list Q),
    (i + length vals1 <= length old)%nat ->
    written i (vals1 ++ vals2) old = written (i + length vals1) vals2 (written i vals1 old).
Proof.
  induction vals1 as [|v vals1 IH]; intros i old Hi.
  - cbn [app length]. now rewrite Nat.add_0_r, written_nil.
  - cbn [app length] in *.
    rewrite <- !written_step by lia.
    rewrite IH by (rewrite length_insert; lia).
    now replace (S i + length vals1)%nat with (i + S (length vals1))%nat by lia.
Qed.

Lemma lookup_written_lt (i j : nat) (vals old : list Q) :
  (i + length vals <= length old)%nat ->
  (j < length vals)%nat ->
  written i vals old !! (i + j)%nat = vals !! j.
Proof.
  intros Hi Hj. unfold written.
  rewrite lookup_app_r by (rewrite length_take; lia).
  rewrite length_take, Nat.min_l by lia.
  replace (i + j - i)%nat with j by lia.
  now rewrite lookup_app_l.
Qed.

Lemma lookup_written_ge (i j : nat) (vals old : list Q) :
  (i + length vals <= length old)%nat ->
  (i + length vals <= j)%nat ->
  written i vals old !! j = old !! j.
Proof.
  intros Hi Hj. unfold written.
  rewrite lookup_app_r by (rewrite length_take; lia).
  rewrite length_take, Nat.min_l by lia.
  rewrite lookup_app_r by lia.
  rewrite lookup_drop. f_equal. lia.
Qed.

Section TrainingProperties.
Variable listdir : string -> list string.
Variable features_of : string -> FeatureMatrix.
Variable ground_truth : list row.

#[local] Abbreviation file_loop := (Training.file_loop features_of ground_truth).
#[local] Abbreviation folder_loop := (Training.folder_loop listdir features_of ground_truth).
#[local] Abbreviation matched_in := (Training.matched_in ground_truth).
#[local] Abbreviation matched := (Training.matched listdir ground_truth).
#[local] Abbreviation after_files := (Training.after_files features_of).

Lemma after_files_nil (st : Training.state) : after_files st [] = st.
Proof.
  unfold Training.after_files. cbn [map length]. rewrite app_nil_r, written_nil, Nat.add_0_r.
  now destruct st.
Qed.

Lemma after_files_app (st : Training.state) (m1 m2 : list (string * label)) :
  (Training.k st + length m1 <= length (Training.y st))%nat ->
  after_files (after_files st m1) m2 = after_files st (m1 ++ m2).
Proof.
  intros Hk. unfold Training.after_files. cbn [Training.features Training.y Training.k].
  rewrite !map_app, app_assoc, length_app, Nat.add_assoc.
  rewrite (written_app _ _ (Training.k st)) by now rewrite length_map.
  now rewrite length_map.
Qed.

Lemma after_files_one (st : Training.state) (path : string) (l : label) :
  (Training.k st < length (Training.y st))%nat ->
  after_files st [(path, l)] =
  {| Training.features := Training.features st ++ [features_of path];
     Training.y := <[Training.k st := class_value l]> (Training.y st);
     Training.k := S (Training.k st) |}.
Proof.
  intros Hk. unfold Training.after_files. cbn [map length fst snd].
  rewrite <- written_step, written_nil by lia.
  now rewrite Nat.add_1_r.
Qed.

Lemma file_loop_returns (folder : string) (f_list : list string) :
  forall st,
    (Training.k st + length (matched_in folder f_list) <= length (Training.y st))%nat ->
    file_loop folder st f_list = Returns (after_files st (matched_in folder f_list)).
Proof.
  induction f_list as [|f_name rest IH]; intros st Hk.
  - cbn. now rewrite after_files_nil.
  - cbn [Training.file_loop Training.matched_in flat_map] in *.
    fold (matched_in folder rest) in *.
    unfold Training.file_body, first_source in *.
    destruct (filter (fun r => file r = strip_ext f_name) ground_truth) as [|r rows].
    + run_bind. cbn [app] in *. now apply IH.
    + cbn [app length] in Hk. rewrite setitem_returns by lia. run_bind.
      rewrite <- (after_files_one st (folder +:+ f_name) (source r)) by lia.
      rewrite IH.
      * apply f_equal, after_files_app. cbn [length]. lia.
      * rewrite after_files_one by lia. cbn [Training.y Training.k].
        rewrite length_insert. lia.
Qed.

Lemma file_loop_overflow (folder : string) (f_list : list string) :
  forall st,
    (Training.k st <= length (Training.y st))%nat ->
    (length (Training.y st) < Training.k st + length (matched_in folder f_list))%nat ->
    file_loop folder st f_list = Raises IndexError.
Proof.
  induction f_list as [|f_name rest IH]; intros st Hle Hk.
  - cbn in Hk. lia.
  - cbn [Training.file_loop Training.matched_in flat_map] in *.
    fold (matched_in folder rest) in *.
    unfold Training.file_body, first_source in *.
    destruct (filter (fun r => file r = strip_ext f_name) ground_truth) as [|r rows].
    + run_bind. cbn [app] in *. now apply IH.
    + cbn [app length] in Hk. unfold setitem.
      destruct (decide (Training.k st < length (Training.y st))%nat) as [Hlt | Hge];
        run_bind; [|reflexivity].
      apply IH; cbn [Training.y Training.k]; rewrite length_insert; lia.
Qed.

Lemma folder_loop_returns (subfolders : list string) :
  forall st,
    (Training.k st + length (matched subfolders) <= length (Training.y st))%nat ->
    folder_loop st subfolders = Returns (after_files st (matched subfolders)).
Proof.
  induction subfolders as [|folder rest IH]; intros st Hk.
  - cbn. now rewrite after_files_nil.
  - cbn [Training.folder_loop Training.matched flat_map] in *.
    fold (matched rest) in *. rewrite length_app in Hk.
    rewrite file_loop_returns by lia. run_bind.
    rewrite IH.
    + apply f_equal, after_files_app. lia.
    + cbn [Training.after_files Training.y Training.k].
      rewrite length_written by (rewrite length_map; lia). lia.
Qed.

Lemma folder_loop_overflow (subfolders : list string) :
  forall st,
    (Training.k st <= length (Training.y st))%nat ->
    (length (Training.y st) < Training.k st + length (matched subfolders))%nat ->
    folder_loop st subfolders = Raises IndexError.
Proof.
  induction subfolders as [|folder rest IH]; intros st Hle Hk.
  - cbn in Hk. lia.
  - cbn [Training.folder_loop Training.matched flat_map] in *.
    fold (matched rest) in *. rewrite length_app in Hk.
    destruct (decide (length (Training.y st) <
                      Training.k st
                      + length (matched_in (Training.wav_folder folder)
                                           (listdir (Training.wav_folder folder))))%nat)
      as [Hover | Hfit].
    + now rewrite file_loop_overflow.
    + rewrite file_loop_returns by lia. run_bind.
      apply IH; cbn [Training.after_files Training.y Training.k];
        rewrite length_written by (rewrite length_map; lia); lia.
Qed.

End TrainingProperties.

(** X10.  When no more files of the listed directories have a row than the
    table has rows, the extraction cell returns, and its labels line up with
    its features: the features are those of the files that have a row, in
    listing order (a file without a row is passed over), [y[i]] is the class
    of the [i]-th of them, the slots of [y] from [k] on are still 0, and [k]
    is their number. *)
Theorem extraction_lines_up (listdir : string -> list string)
    (features_of : string -> FeatureMatrix) (ground_truth : list row)
    (subfolders : list string) (n_subfls : nat) :
  (length (Training.matched listdir ground_truth (take n_subfls subfolders))
   <= length ground_truth)%nat ->
  exists st,
    Training.extraction listdir features_of ground_truth subfolders n_subfls = Returns st /\
    Training.features st =
      map (fun p => features_of p.1)
          (Training.matched listdir ground_truth (take n_subfls subfolders)) /\
    Training.k st =
      length (Training.matched listdir ground_truth (take n_subfls subfolders)) /\
    length (Training.y st) = length ground_truth /\
    (forall i p,
       Training.matched listdir ground_truth (take n_subfls subfolders) !! i = Some p ->
       Training.y st !! i = Some (class_value p.2)) /\
    (forall i, (Training.k st <= i < length ground_truth)%nat ->
               Training.y st !! i = Some 0).
Proof.
  intros Hfit. unfold Training.extraction.
  rewrite folder_loop_returns
    by (cbn [Training.y Training.k]; unfold np_zeros; rewrite length_replicate; lia).
  eexists. split; [reflexivity|].
  cbn [Training.after_files Training.features Training.y Training.k app plus].
  assert (Hlen : (0 + length (map (fun p : string * label => class_value p.2)
                                  (Training.matched listdir ground_truth
                                     (take n_subfls subfolders)))
                  <= length (np_zeros (length ground_truth)))%nat).
  { unfold np_zeros. rewrite length_map, length_replicate. lia. }
  repeat split.
  - rewrite length_written by exact Hlen. unfold np_zeros. apply length_replicate.
  - intros i p Hp.
    rewrite <- (Nat.add_0_l i) at 1.
    rewrite lookup_written_lt.
    + change (map (fun p0 : string * label => class_value p0.2) ?l)
        with ((fun p0 : string * label => class_value p0.2) <$> l).
      now rewrite list_lookup_fmap, Hp.
    + exact Hlen.
    + rewrite length_map. now apply lookup_lt_Some in Hp.
  - intros i [Hlo Hhi].
    rewrite lookup_written_ge; [| exact Hlen | rewrite length_map; lia].
    unfold np_zeros. now apply lookup_replicate_2.
Qed.

Lemma extraction_lines_up_witness :
  exists st,
    Training.extraction example_listdir example_features example_train ["T1"; "T2"] 1
      = Returns st /\
    Training.features st =
      map (fun p => example_features p.1)
          (Training.matched example_listdir example_train (take 1 ["T1"; "T2"])) /\
    Training.k st =
      length (Training.matched example_listdir example_train (take 1 ["T1"; "T2"])) /\
    length (Training.y st) = length example_train /\
    (forall i p,
       Training.matched example_listdir example_train (take 1 ["T1"; "T2"]) !! i = Some p ->
       Training.y st !! i = Some (class_value p.2)) /\
    (forall i, (Training.k st <= i < length example_train)%nat ->
               Training.y st !! i = Some 0).
Proof.
  apply (extraction_lines_up example_listdir example_features example_train
           ["T1"; "T2"] 1).
  vm_compute. lia.
Defined.

(** X11.  When more files of the listed directories have a row than the table
    has rows (a file is matched by its name without its last four characters,
    in whatever folder and with whatever extension), the extraction cell
    raises IndexError at the write [y[k]] of the first file too many. *)
Theorem extraction_overflow (listdir : string -> list string)
    (features_of : string -> FeatureMatrix) (ground_truth : list row)
    (subfolders : list string) (n_subfls : nat) :
  (length ground_truth
   < length (Training.matched listdir ground_truth (take n_subfls subfolders)))%nat ->
  Training.extraction listdir features_of ground_truth subfolders n_subfls
  = Raises IndexError.
Proof.
  intros Hover. unfold Training.extraction.
  apply folder_loop_overflow; cbn [Training.y Training.k];
    unfold np_zeros; rewrite length_replicate; lia.
Qed.

Lemma extraction_overflow_witness :
  Training.extraction example_listdir example_features (take 2 example_train)
    ["T1"; "T2"] 2
  = Raises IndexError.
Proof.
  apply (extraction_overflow example_listdir example_features (take 2 example_train)
           ["T1"; "T2"] 2).
  vm_compute. lia.
Defined.

(** ** Training data of the two GMMs *)

Lemma mask_select_class (features_of : string -> FeatureMatrix)
    (m : list (string * label)) (c : label) :
  mask_select (map (fun p => features_of p.1) m)
              (np_eq_float (map (fun p => class_value p.2) m) (class_value c)) =
  map (fun p => features_of p.1) (filter (fun p => p.2 = c) m).
Proof.
  induction m as [|[path l] m IH]; [reflexivity|].
  cbn [map np_eq_float mask_select fst snd]. rewrite filter_cons. cbn [snd].
  fold (np_eq_float (map (fun p : string * label => class_value p.2) m) (class_value c)).
  rewrite IH. destruct l, c; reflexivity.
Qed.

(** X12.  When every row of the table has its file (the extraction ends with
    [k] at the number of rows), the natural GMM is trained on the frames of
    exactly the files labelled human and the synthetic GMM on those of
    exactly the files labelled spoof, each in listing order. *)
Theorem training_frames_by_label (listdir : string -> list string)
    (features_of : string -> FeatureMatrix) (ground_truth : list row)
    (subfolders : list string) (n_subfls : nat) :
  length (Training.matched listdir ground_truth (take n_subfls subfolders))
  = length ground_truth ->
  exists st,
    Training.extraction listdir features_of ground_truth subfolders n_subfls = Returns st /\
    training_frames (Training.features st) (Training.y st) 1 =
      np_vstack (map (fun p => features_of p.1)
                   (filter (fun p => p.2 = human)
                      (Training.matched listdir ground_truth (take n_subfls subfolders)))) /\
    training_frames (Training.features st) (Training.y st) 0 =
      np_vstack (map (fun p => features_of p.1)
                   (filter (fun p => p.2 = spoof)
                      (Training.matched listdir ground_truth (take n_subfls subfolders)))).
Proof.
  intros Hall. unfold Training.extraction.
  rewrite folder_loop_returns
    by (cbn [Training.y Training.k]; unfold np_zeros; rewrite length_replicate; lia).
  eexists. split; [reflexivity|].
  cbn [Training.after_files Training.features Training.y Training.k app].
  rewrite <- Hall.
  rewrite <- (length_map (fun p : string * label => class_value p.2)) at 1 2.
  rewrite written_zeros.
  unfold training_frames, mask_index, np_eq_float. rewrite !length_map, Nat.eqb_refl.
  run_bind.
  fold (np_eq_float (map (fun p : string * label => class_value p.2)
                       (Training.matched listdir ground_truth (take n_subfls subfolders))) 1).
  fold (np_eq_float (map (fun p : string * label => class_value p.2)
                       (Training.matched listdir ground_truth (take n_subfls subfolders))) 0).
  change 1 with (class_value human) at 1. change 0 with (class_value spoof) at 1.
  now rewrite !mask_select_class.
Qed.

Lemma training_frames_by_label_witness :
  exists st,
    Training.extraction example_listdir example_features example_train ["T1"; "T2"] 1
      = Returns st /\
    training_frames (Training.features st) (Training.y st) 1 =
      np_vstack (map (fun p => example_features p.1)
                   (filter (fun p => p.2 = human)
                      (Training.matched example_listdir example_train
                         (take 1 ["T1"; "T2"])))) /\
    training_frames (Training.features st) (Training.y st) 0 =
      np_vstack (map (fun p => example_features p.1)
                   (filter (fun p => p.2 = spoof)
                      (Training.matched example_listdir example_train
                         (take 1 ["T1"; "T2"])))).
Proof.
  apply (training_frames_by_label example_listdir example_features example_train
           ["T1"; "T2"] 1).
  reflexivity.
Defined.

(** ** The EER cell as the threshold moves *)

Lemma class_scores_Forall (P : Q -> Prop) (c : label) (s : ScoreSet) :
  Forall P (scores_of s) -> Forall P (class_scores c s).
Proof.
  unfold scores_of, class_scores. induction s as [|[l x] s IH]; intros H.
  - constructor.
  - cbn [map snd] in H. apply Forall_cons in H. destruct H as [Hx H].
    rewrite filter_cons. destruct (decide ((l, x).1 = c)); [|now apply IH].
    cbn [map snd]. constructor; [exact Hx | now apply IH].
Qed.

Lemma counts_between (t1 t2 : Q) (l : list Q) :
  t1 <= t2 ->
  Forall (fun x => ~ (t1 < x /\ x <= t2)) l ->
  count_gt t1 l = count_gt t2 l /\ count_le t1 l = count_le t2 l.
Proof.
  intros Ht. induction 1 as [|x l Hx _ [IH1 IH2]]; [split; reflexivity|].
  rewrite !count_gt_cons, !count_le_cons, IH1, IH2.
  destruct (Qlt_bool t1 x) eqn:E1, (Qlt_bool t2 x) eqn:E2; try (split; reflexivity).
  - apply Qlt_bool_iff in E1. apply Qlt_bool_false in E2.
    destruct Hx. split; [exact E1 | now apply Qnot_lt_le].
  - apply Qlt_bool_false in E1. apply Qlt_bool_iff in E2.
    destruct E1. exact (Qle_lt_trans _ _ _ Ht E2).
Qed.

(** X14.  The EER cell only sees the threshold through the scores it
    separates: two thresholds with no score above the lower and at most the
    upper one give the same rates, the same estimate and the same mark, so
    that moving [thr] by hand changes the printed values in steps. *)
Theorem eer_cell_constant_between_scores (s : ScoreSet) (t1 t2 : Q) :
  t1 <= t2 ->
  Forall (fun x => ~ (t1 < x /\ x <= t2)) (scores_of s) ->
  eer_cell_set s t1 = eer_cell_set s t2.
Proof.
  intros Ht Hnone.
  destruct (counts_between t1 t2 (class_scores spoof s) Ht) as [Hgt _];
    [now apply class_scores_Forall|].
  destruct (counts_between t1 t2 (class_scores human s) Ht) as [_ Hle];
    [now apply class_scores_Forall|].
  rewrite !eer_cell_set_unfold. unfold b64_rate_difference.
  now rewrite Hgt, Hle.
Qed.

Lemma eer_cell_constant_between_scores_witness :
  eer_cell_set example_set (2 # 10) = eer_cell_set example_set (3 # 10).
Proof.
  apply (eer_cell_constant_between_scores example_set (2 # 10) (3 # 10)).
  - vm_compute. discriminate.
  - repeat constructor; intros [H1 H2]; vm_compute in H1, H2; (now apply H2) || discriminate H1.
Defined.







(** On the example score set the two cases of a threshold outside the
    scores, as the cell prints them: the float64 difference of the rates is
    100, respectively -100, and the estimate 50 is marked as approximate. *)
Example eer_cell_outside_example :
  eer_cell_set example_set (- (1)) =
    Returns {| rep_fnr := Fin (200 # 2); rep_fpr := Fin (0 # 2);
               rep_diff := b64_of_Z 100; rep_exact := false;
               rep_eer := Fin (400 # 8) |} /\
  eer_cell_set example_set 1 =
    Returns {| rep_fnr := Fin (0 # 2); rep_fpr := Fin (200 # 2);
               rep_diff := b64_of_Z (-100); rep_exact := false;
               rep_eer := Fin (400 # 8) |}.
Proof. split; vm_compute; reflexivity. Qed.

(** ** From the loading cell to the scoring cell *)

(** X13.  Whatever the protocol file and the subfolder list, the table that
    the loading cell builds is scored in row order: when the models return on
    its utterances, slot [i] of [llr_gmm_score] and of [z_gmm] belongs to row
    [i] of the loaded table. *)
Theorem loaded_table_scores_line_up (features_of : string -> FeatureMatrix)
    (gmm_nat gmm_synt : DensityModel) (subfls : list string) (csv : list row) :
  Forall (fun r => returns (gmm_nat (row_features features_of r)) /\
                   returns (gmm_synt (row_features features_of r)))
         (load_table subfls csv) ->
  exists st,
    scoring_cell_table features_of gmm_nat gmm_synt (load_table subfls csv) = Returns st /\
    Forall2 (fun r v => score gmm_nat gmm_synt (row_features features_of r) = Returns v)
            (load_table subfls csv) (llr_gmm_score st) /\
    z_gmm st = map hard_decision (llr_gmm_score st) /\
    k st = length (load_table subfls csv).
Proof.
  apply scoring_cell_table_sorted.
  eapply StronglySorted_weaken; [|apply sort_values_sorted].
  intros r1 r2. apply row_le_folder.
Qed.

Lemma loaded_table_scores_line_up_witness :
  exists st,
    scoring_cell_table example_features (frame_count_model 2) (frame_count_model 1)
      (load_table ["D1"] example_table_unsorted) = Returns st /\
    Forall2 (fun r v => score (frame_count_model 2) (frame_count_model 1)
                          (row_features example_features r) = Returns v)
            (load_table ["D1"] example_table_unsorted) (llr_gmm_score st) /\
    z_gmm st = map hard_decision (llr_gmm_score st) /\
    k st = length (load_table ["D1"] example_table_unsorted).
Proof.
  apply (loaded_table_scores_line_up example_features
           (frame_count_model 2) (frame_count_model 1) ["D1"] example_table_unsorted).
  vm_compute. repeat constructor; eexists; reflexivity.
Defined.

(** ** Which files the extraction takes *)

Lemma string_length_append (s t : string) :
  String.length (s +:+ t) = (String.length s + String.length t)%nat.
Proof.
  induction s as [|c s IH]; [reflexivity|].
  change (S (String.length (s +:+ t)) = S (String.length s + String.length t)).
  now rewrite IH.
Qed.

Lemma substring_prefix (s t : string) :
  String.substring 0 (String.length s) (s +:+ t) = s.
Proof.
  induction s as [|c s IH].
  - now destruct t.
  - change (String c (String.substring 0 (String.length s) (s +:+ t)) = String c s).
    now rewrite IH.
Qed.

Lemma first_source_elem (ground_truth : list row) (name : string) :
  name ∈ map file ground_truth ->
  exists r, r ∈ ground_truth /\ file r = name /\
            first_source ground_truth name = Returns (source r).
Proof.
  intros Hin. apply list_elem_of_fmap in Hin. destruct Hin as (r0 & -> & Hr0).
  unfold first_source.
  destruct (filter (fun r => file r = file r0) ground_truth) as [|r rows] eqn:E.
  - assert (Hr : r0 ∈ filter (fun r => file r = file r0) ground_truth)
      by now apply list_elem_of_filter.
    rewrite E in Hr. now apply elem_of_nil in Hr.
  - assert (Hr : r ∈ filter (fun r => file r = file r0) ground_truth)
      by (rewrite E; now left).
    apply list_elem_of_filter in Hr. destruct Hr as [Hfile Hr].
    now exists r.
Qed.

Lemma same_file_same_row (ground_truth : list row) (r1 r2 : row) :
  NoDup (map file ground_truth) ->
  r1 ∈ ground_truth -> r2 ∈ ground_truth -> file r1 = file r2 -> r1 = r2.
Proof.
  induction ground_truth as [|r l IH]; intros Hnd H1 H2 Hfile.
  - now apply elem_of_nil in H1.
  - cbn [map] in Hnd. apply NoDup_cons in Hnd. destruct Hnd as [Hr Hnd].
    apply elem_of_cons in H1, H2.
    destruct H1 as [-> | H1], H2 as [-> | H2]; [reflexivity | | | now apply IH].
    + destruct Hr. rewrite Hfile. apply list_elem_of_fmap. now exists r2.
    + destruct Hr. rewrite <- Hfile. apply list_elem_of_fmap. now exists r1.
Qed.

(** X16.  The extraction takes a listed file exactly when its name without
    the last four characters is a file of the table; the name ["f.wav"] gives
    back [f], so the utterance of a row is taken, and when the file names of
    the table are distinct it is given the label of its own row. *)
Theorem extraction_matches_by_stem (ground_truth : list row) :
  (forall f_name, returns (first_source ground_truth (strip_ext f_name)) <->
                  strip_ext f_name ∈ map file ground_truth) /\
  (forall f, strip_ext (f +:+ EXT) = f) /\
  (forall r, r ∈ ground_truth ->
             returns (first_source ground_truth (strip_ext (file r +:+ EXT))) /\
             (NoDup (map file ground_truth) ->
              first_source ground_truth (strip_ext (file r +:+ EXT)) = Returns (source r))).
Proof.
  assert (Hstrip : forall f, strip_ext (f +:+ EXT) = f).
  { intros f. unfold strip_ext. rewrite string_length_append.
    replace (String.length f + String.length EXT - String.length EXT)%nat
      with (String.length f) by lia.
    apply substring_prefix. }
  split; [|split; [exact Hstrip|]].
  - intros f_name. split.
    + intros [l Hl]. unfold first_source in Hl.
      destruct (filter (fun r => file r = strip_ext f_name) ground_truth) as [|r rows] eqn:E;
        [discriminate Hl|].
      assert (Hr : r ∈ filter (fun r => file r = strip_ext f_name) ground_truth)
        by (rewrite E; now left).
      apply list_elem_of_filter in Hr. destruct Hr as [<- Hr].
      apply list_elem_of_fmap. now exists r.
    + intros Hin. destruct (first_source_elem _ _ Hin) as (r & _ & _ & Hr).
      now exists (source r).
  - intros r Hr. rewrite Hstrip.
    assert (Hin : file r ∈ map file ground_truth)
      by (apply list_elem_of_fmap; now exists r).
    destruct (first_source_elem _ _ Hin) as (r' & Hr' & Hfile & Hsrc).
    split; [now exists (source r')|].
    intros Hnd. rewrite Hsrc. f_equal. f_equal.
    now apply (same_file_same_row ground_truth).
Qed.
